(** * Broadcasting addition of n-dimensional integer arrays

    A shallow embedding of [broadcasting.py]: the rank aligner
    [match_dimensions], the shape broadcaster [broadcasted_shape], the
    stretched indexer [get_item] and the element-wise adder [add],
    together with the part of numpy they rely on (row-major indexing,
    [np.resize], [np.empty], [np.ndindex]).

    Arrays are Python objects: they live in a store and are passed around
    by reference.  Functions that allocate or write ([match_dimensions],
    [add]) are written in a state-and-exception monad over that store;
    functions that only compute on values ([minmax], [broadcasted_shape],
    [get_item]) are plain functions returning a [result]. *)

From Stdlib Require Import ZArith Lia.
From stdpp Require Import base tactics option list.

Local Open Scope Z_scope.

(** ** Data model *)

(** [Shape = tuple[int, ...]] *)
Abbreviation Shape := (list Z) (only parsing).

(** The element types of the arrays: numpy's signed integer types and
    the unsigned ones whose sums with any of them are again integers.
    (The sum of a [uint64] and a signed integer is a [float64]; arrays of
    [uint64], of floats, of booleans and of objects are not part of this
    embedding.) *)
Inductive scalar_type :=
| int8 | int16 | int32 | int64
| uint8 | uint16 | uint32.

(** [Array = np.ndarray]: an element type, a shape and a flat row-major
    buffer of integers. *)
Record Array := mkArray { dtype : scalar_type; shape : Shape; data : list Z }.

(** Number of elements described by a shape ([np.prod]). *)
Definition size_of (s : Shape) : Z := foldr Z.mul 1 s.

(** The invariant numpy maintains for every array object: no negative
    dimension, and a buffer with one cell per coordinate. *)
Definition wf (a : Array) : Prop :=
  Forall (λ d, 0 ≤ d) (shape a) ∧ Z.of_nat (length (data a)) = size_of (shape a).

(** Exceptions the code can raise.  [ValueError] is the one raised by
    [broadcasted_shape]; its two arguments are the values interpolated
    in its message.  [NegativeDimension] is what numpy raises when asked
    for an array with a negative axis, [IndexError] what it raises for an
    index outside an axis or for too many indices.  [Unmodelled] marks
    the two situations the embedding does not follow further (a dangling
    reference, array-valued operands of [+]); [add_never_unmodelled]
    shows that [add] on well-formed arrays does not reach it. *)
Inductive exception :=
| ValueError (shape shape2 : Shape)
| NegativeDimension
| IndexError
| Unmodelled.

Inductive result (A : Type) :=
| Ok (a : A)
| Raise (e : exception).
Arguments Ok {A} a.
Arguments Raise {A} e.

(** What [arr[indices]] evaluates to: an element when every axis is
    indexed, a sub-array otherwise. *)
Inductive item :=
| Scalar (v : Z)
| View (a : Array).

(** ** Arithmetic of numpy's integer scalars *)

Definition is_signed (t : scalar_type) : bool :=
  match t with
  | int8 | int16 | int32 | int64 => true
  | uint8 | uint16 | uint32 => false
  end.

Definition bits (t : scalar_type) : Z :=
  match t with
  | int8 | uint8 => 8
  | int16 | uint16 => 16
  | int32 | uint32 => 32
  | int64 => 64
  end.

(** The value of type [t] an integer is reduced to: two's complement for
    the signed types, the remainder for the unsigned ones. *)
Definition wrap (t : scalar_type) (z : Z) : Z :=
  if is_signed t
  then (z + 2 ^ (bits t - 1)) mod 2 ^ bits t - 2 ^ (bits t - 1)
  else z mod 2 ^ bits t.

(** The smallest signed type that holds every value of [t]. *)
Definition to_signed (t : scalar_type) : scalar_type :=
  match t with
  | uint8 => int16
  | uint16 => int32
  | uint32 => int64
  | _ => t
  end.

Definition wider (t t2 : scalar_type) : scalar_type :=
  if bits t <? bits t2 then t2 else t.

(** [np.result_type]: the type in which numpy adds a scalar of type [t]
    and one of type [t2]. *)
Definition promote (t t2 : scalar_type) : scalar_type :=
  if Bool.eqb (is_signed t) (is_signed t2)
  then wider t t2
  else wider (to_signed t) (to_signed t2).

(** [x + y] for a numpy scalar [x] of type [t] and one [y] of type [t2]:
    the sum in the promoted type, wrapping around on overflow. *)
Definition scalar_add (t t2 : scalar_type) (x y : Z) : Z :=
  wrap (promote t t2) (x + y).

(** ** The numpy primitives used by the program *)

(** Integer indexing.  Each index [i] on an axis of size [d] must satisfy
    [-d <= i < d]; negative indices count from the end.  The result is the
    row-major position reached and the shape that is left. *)
Fixpoint locate (sh : Shape) (indices : list Z) (pos : Z) : result (Z * Shape) :=
  match indices, sh with
  | [], _ => Ok (pos, sh)
  | i :: indices', d :: sh' =>
      if (- d <=? i) && (i <? d)
      then locate sh' indices' (pos * d + (if i <? 0 then i + d else i))
      else Raise IndexError
  | _ :: _, [] => Raise IndexError
  end.

Definition getitem (a : Array) (indices : list Z) : result item :=
  match locate (shape a) indices 0 with
  | Ok (pos, []) => Ok (Scalar (nth (Z.to_nat pos) (data a) 0))
  | Ok (pos, rest) =>
      let n := Z.to_nat (size_of rest) in
      Ok (View (mkArray (dtype a) rest
                  (take n (drop (Z.to_nat pos * n) (data a)))))
  | Raise e => Raise e
  end.

(** [a[indices] = v] for an integer scalar [v], which is cast to the
    element type of [a]: one cell when every axis is indexed, the whole
    sub-block otherwise. *)
Definition setitem_value (a : Array) (indices : list Z) (v : Z) : result Array :=
  match locate (shape a) indices 0 with
  | Ok (pos, []) =>
      Ok (mkArray (dtype a) (shape a)
            (<[Z.to_nat pos := wrap (dtype a) v]> (data a)))
  | Ok (pos, rest) =>
      let n := Z.to_nat (size_of rest) in
      let start := (Z.to_nat pos * n)%nat in
      Ok (mkArray (dtype a) (shape a)
            (take start (data a)
             ++ replicate (length (take n (drop start (data a))))
                  (wrap (dtype a) v)
             ++ drop (start + n) (data a)))
  | Raise e => Raise e
  end.

(** [range(d)] *)
Definition range (d : Z) : list Z := seqZ 0 d.

(** [np.ndindex] on the axes of a shape: every coordinate, last axis
    fastest. *)
Fixpoint ndindex (sh : Shape) : list (list Z) :=
  match sh with
  | [] => [[]]
  | d :: sh' => i ← range d; (cons i) <$> ndindex sh'
  end.

Definition has_negative (sh : Shape) : bool := existsb (λ d, d <? 0) sh.

(** [np.resize(a, new_shape)]: the flattened input, repeated as often as
    needed and cut to the new size; zeros when either size is 0. *)
Definition np_resize (a : Array) (new_shape : Shape) : result Array :=
  let flat := data a in
  if has_negative new_shape then Raise NegativeDimension
  else
    let new_size := size_of new_shape in
    if (Z.of_nat (length flat) =? 0) || (new_size =? 0)
    then Ok (mkArray (dtype a) new_shape (replicate (Z.to_nat new_size) 0))
    else
      let repeats := - (- new_size / Z.of_nat (length flat)) in
      Ok (mkArray (dtype a) new_shape
            (take (Z.to_nat new_size)
               (concat (replicate (Z.to_nat repeats) flat)))).

(** ** Pure functions of the program *)

(** [min((arg, arg2), key=key), max((arg, arg2), key=key)]: Python keeps
    the first of two items with equal keys. *)
Definition minmax {A : Type} (arg arg2 : A) (key : A → Z) : A * A :=
  (if key arg2 <? key arg then arg2 else arg,
   if key arg <? key arg2 then arg2 else arg).

(** The loop of [broadcasted_shape] over [zip(shape[::-1], shape2[::-1])];
    [new_shape.insert(0, _)] is a cons. *)
Fixpoint broadcasted_shape_loop (sh sh2 : Shape) (pairs : list (Z * Z))
    (new_shape : list Z) : result Shape :=
  match pairs with
  | [] => Ok new_shape
  | (dim, dim2) :: pairs' =>
      if (dim =? dim2) || (dim2 =? 1)
      then broadcasted_shape_loop sh sh2 pairs' (dim :: new_shape)
      else if dim =? 1
      then broadcasted_shape_loop sh sh2 pairs' (dim2 :: new_shape)
      else Raise (ValueError sh sh2)
  end.

Definition broadcasted_shape (sh sh2 : Shape) : result Shape :=
  broadcasted_shape_loop sh sh2 (zip (reverse sh) (reverse sh2)) [].

Definition modified_indices (sh : Shape) (indices : list Z) : list Z :=
  (λ '(dim, index), if dim =? 1 then 0 else index) <$> zip sh indices.

Definition get_item (arr : Array) (indices : list Z) : result item :=
  getitem arr (modified_indices (shape arr) indices).

(** [x + y] on what [get_item] returned from an array of element type
    [t] and from one of element type [t2]. *)
Definition item_add (t t2 : scalar_type) (x y : item) : result Z :=
  match x, y with
  | Scalar v, Scalar v2 => Ok (scalar_add t t2 v v2)
  | _, _ => Raise Unmodelled
  end.

(** ** The object store *)

Abbreviation ref := nat (only parsing).
Abbreviation heap := (list Array) (only parsing).

(** Computations that read and write the store and may raise.  The store
    reached when an exception is raised is kept: Python does not undo
    writes. *)
Definition Py (A : Type) : Type := heap → result A * heap.

Global Instance py_ret : MRet Py := λ A (a : A) h, (Ok a, h).
Global Instance py_bind : MBind Py := λ A B (f : A → Py B) (m : Py A) h,
  match m h with
  | (Ok a, h') => f a h'
  | (Raise e, h') => (Raise e, h')
  end.

Definition lift {A : Type} (r : result A) : Py A := λ h, (r, h).

Definition deref (r : ref) : Py Array := λ h,
  match h !! r with
  | Some a => (Ok a, h)
  | None => (Raise Unmodelled, h)
  end.

Definition alloc (a : Array) : Py ref := λ h, (Ok (length h), h ++ [a]).

Definition rank_in (h : heap) (r : ref) : Z :=
  match h !! r with
  | Some a => Z.of_nat (length (shape a))
  | None => 0
  end.

Definition current_heap : Py heap := λ h, (Ok h, h).

(** [out[indices] = v] *)
Definition setitem (out : ref) (indices : list Z) (v : Z) : Py unit := λ h,
  match h !! out with
  | Some a =>
      match setitem_value a indices v with
      | Ok a' => (Ok tt, <[out := a']> h)
      | Raise e => (Raise e, h)
      end
  | None => (Raise Unmodelled, h)
  end.

Fixpoint for_each {A : Type} (l : list A) (body : A → Py unit) : Py unit :=
  match l with
  | [] => mret tt
  | x :: l' => body x;; for_each l' body
  end.

Section Program.

(** Whatever [np.empty] finds in the memory it hands out. *)
Variable uninit : nat → Z.

(** [np.empty(sh, dtype=int)] *)
Definition np_empty (sh : Shape) : Py ref :=
  if has_negative sh then lift (Raise NegativeDimension)
  else alloc (mkArray int64 sh (uninit <$> seq 0 (Z.to_nat (size_of sh)))).

Definition match_dimensions (arr arr2 : ref) : Py (ref * ref) :=
  a ← deref arr;
  a2 ← deref arr2;
  if (length (shape a) =? length (shape a2))%nat
  then mret (arr, arr2)
  else
    h ← current_heap;
    let '(to_prepend, larger) := minmax arr arr2 (rank_in h) in
    t ← deref to_prepend;
    l ← deref larger;
    let ts := shape t in
    let ls := shape l in
    let difference := Z.of_nat (length ls) - Z.of_nat (length ts) in
    resized ← lift (np_resize t (replicate (Z.to_nat difference) 1 ++ ts));
    r ← alloc resized;
    mret (r, larger).

(** The body of the loop of [add]. *)
Definition add_at (arr arr2 out : ref) (indices : list Z) : Py unit :=
  a ← deref arr;
  x ← lift (get_item a indices);
  a2 ← deref arr2;
  y ← lift (get_item a2 indices);
  v ← lift (item_add (dtype a) (dtype a2) x y);
  setitem out indices v.

Definition add (arr arr2 : ref) : Py ref :=
  '(arr, arr2) ← match_dimensions arr arr2;
  a ← deref arr;
  a2 ← deref arr2;
  output_shape ← lift (broadcasted_shape (shape a) (shape a2));
  out ← np_empty output_shape;
  for_each (ndindex output_shape) (add_at arr arr2 out);;
  mret out.

End Program.

(** ** Vocabulary of the statements *)

(** One pair of axes matches. *)
Definition dims_match (dim dim2 : Z) : Prop := dim = dim2 ∨ dim2 = 1 ∨ dim = 1.

(** The same as a test on a pair of the zipped shapes. *)
Definition dims_matchb (p : Z * Z) : bool :=
  (p.1 =? p.2) || (p.2 =? 1) || (p.1 =? 1).

(** The axis the loop inserts for a matching pair. *)
Definition broadcast_dim (dim dim2 : Z) : Z :=
  if (dim =? dim2) || (dim2 =? 1) then dim else dim2.

(** A coordinate of an array of shape [sh]: one component per axis, each
    non-negative and below the size of its axis. *)
Definition in_bounds (sh : Shape) (c : list Z) : Prop :=
  Forall2 (λ i d, 0 ≤ i < d) c sh.

(** Row-major position of a coordinate, continuing from [pos]. *)
Fixpoint flat_index (sh : Shape) (c : list Z) (pos : Z) : Z :=
  match c, sh with
  | i :: c', d :: sh' => flat_index sh' c' (pos * d + i)
  | _, _ => pos
  end.

(** The element stored at a coordinate. *)
Definition element (a : Array) (c : list Z) : Z :=
  nth (Z.to_nat (flat_index (shape a) c 0)) (data a) 0.

(** An axis of an operand either has the size of the output axis or is
    stretched from size 1. *)
Definition stretches_to (dim out_dim : Z) : Prop := dim = out_dim ∨ dim = 1.

(** The array [np.resize] is expected to produce in [match_dimensions]:
    [n] leading axes of size 1 in front of the shape, the buffer as it
    was. *)
Definition prepend_axes (n : nat) (a : Array) : Array :=
  mkArray (dtype a) (replicate n 1 ++ shape a) (data a).

(** What [add] stores at a coordinate of the output. *)
Definition stretched_sum (a a2 : Array) (c : list Z) : Z :=
  scalar_add (dtype a) (dtype a2)
    (element a (modified_indices (shape a) c))
    (element a2 (modified_indices (shape a2) c)).

(** The values of an element type. *)
Definition representable (t : scalar_type) (z : Z) : Prop :=
  if is_signed t
  then - 2 ^ (bits t - 1) ≤ z < 2 ^ (bits t - 1)
  else 0 ≤ z < 2 ^ bits t.

(** The shapes [match_dimensions] hands on, in the order it returns them. *)
Definition aligned_shapes (sh sh2 : Shape) : Shape * Shape :=
  if (length sh =? length sh2)%nat then (sh, sh2)
  else if (length sh <? length sh2)%nat
  then (replicate (length sh2 - length sh) 1 ++ sh, sh2)
  else (replicate (length sh - length sh2) 1 ++ sh2, sh).

(** [keeps n m post]: run from any store with at least [n] objects, [m]
    leaves the first [n] objects as they are, whether it returns or
    raises, and a returned value satisfies [post]. *)
Definition keeps {A} (n : nat) (m : Py A) (post : A → Prop) : Prop :=
  ∀ h, (n ≤ length h)%nat →
    take n (m h).2 = take n h
    ∧ (n ≤ length (m h).2)%nat
    ∧ ∀ v, (m h).1 = Ok v → post v.

(** An axis pair that stops the scan. *)
Definition mismatch_at (sh sh2 : Shape) (i : nat) : Prop :=
  ∃ dim dim2,
    sh !! i = Some dim ∧ sh2 !! i = Some dim2
    ∧ dim ≠ dim2 ∧ dim ≠ 1 ∧ dim2 ≠ 1.

(** The coordinate the stretched indexer looks up, axis by axis: 0 on
    every axis where the array has size 1, the given component
    elsewhere. *)
Definition stretched_coordinate (sh : Shape) (c : list Z) : list Z :=
  imap (λ axis i, if decide (sh !! axis = Some 1) then 0 else i) c.

(** Deciding [wf], for concrete arrays. *)
Definition wfb (a : Array) : bool :=
  forallb (λ d, 0 <=? d) (shape a)
  && (Z.of_nat (length (data a)) =? size_of (shape a)).

(** The claim C1 makes, as a property of one call: every coordinate of
    the array [add] returns holds the sum of the two stretch-indexed
    elements of the rank-aligned operands. *)
Definition stores_sums uninit (h : heap) (r1 r2 : ref) : Prop :=
  ∀ p q h1 a' b' out h' o c x y,
    match_dimensions r1 r2 h = (Ok (p, q), h1) →
    h1 !! p = Some a' → h1 !! q = Some b' →
    add uninit r1 r2 h = (Ok out, h') → h' !! out = Some o →
    in_bounds (shape o) c →
    get_item a' c = Ok (Scalar x) → get_item b' c = Ok (Scalar y) →
    getitem o c = Ok (Scalar (x + y)).

(** The claim C3 makes, as a property of one call: an exception raised
    by [add] carries the shapes the two arguments had when passed in. *)
Definition reports_original_shapes uninit (h : heap) (r1 r2 : ref) : Prop :=
  ∀ a b e h',
    h !! r1 = Some a → h !! r2 = Some b →
    add uninit r1 r2 h = (Raise e, h') →
    e = ValueError (shape a) (shape b).

(** The claim C4 makes, as a property of one call: the aligner returns
    the two operands in the order given, each padded with leading axes
    of size 1 up to the larger rank (the higher-rank one needs none). *)
Definition aligns_in_operand_order (h : heap) (r1 r2 : ref) : Prop :=
  ∀ a b,
    h !! r1 = Some a → h !! r2 = Some b →
    ∃ p q h1,
      match_dimensions r1 r2 h = (Ok (p, q), h1)
      ∧ h1 !! p = Some (prepend_axes (length (shape b) - length (shape a)) a)
      ∧ h1 !! q = Some (prepend_axes (length (shape a) - length (shape b)) b).

(** The coordinate at a row-major position ([np.unravel_index]), the
    inverse of [flat_index] on the positions of a shape. *)
Fixpoint unravel (sh : Shape) (k : Z) : list Z :=
  match sh with
  | [] => []
  | _ :: sh' => k / size_of sh' :: unravel sh' (k mod size_of sh')
  end.

(** An index a numpy axis of size [d] accepts. *)
Definition valid_index (d i : Z) : Prop := - d ≤ i < d.

(** ** The arrays of the examples *)

(** [[1,2,3],[4,5,6]], [[10,20,30]], [10,20,30] and [10,20]. *)
Definition a23 : Array := mkArray int64 [2; 3] [1; 2; 3; 4; 5; 6].
Definition b13 : Array := mkArray int64 [1; 3] [10; 20; 30].
Definition b3 : Array := mkArray int64 [3] [10; 20; 30].
Definition b2 : Array := mkArray int64 [2] [10; 20].

(** * Properties *)

(** ** The examples of the specification *)
Example add_a23_b13 uninit :
  add uninit 0%nat 1%nat [a23; b13]
  = (Ok 2%nat, [a23; b13; mkArray int64 [2; 3] [11; 22; 33; 14; 25; 36]]).
Proof. reflexivity. Qed.

Example add_a23_b3 uninit :
  add uninit 0%nat 1%nat [a23; b3]
  = (Ok 3%nat, [a23; b3; b13; mkArray int64 [2; 3] [11; 22; 33; 14; 25; 36]]).
Proof. reflexivity. Qed.

Example add_a23_b2 uninit :
  add uninit 0%nat 1%nat [a23; b2]
  = (Raise (ValueError [1; 2] [2; 3]), [a23; b2; mkArray int64 [1; 2] [10; 20]]).
Proof. reflexivity. Qed.

(** The demonstration at the end of the file: a column of shape (5,1),
    a row of shape (1,6) and a vector of shape (6,), added in a chain. *)
Example add_demo uninit :
  let a := mkArray int64 [5; 1] [1; 2; 3; 4; 5] in
  let b := mkArray int64 [1; 6] [1; 2; 3; 4; 5; 6] in
  let c := mkArray int64 [6] [1; 2; 3; 4; 5; 6] in
  ∃ h,
    (ab ← add uninit 0%nat 1%nat; add uninit ab 2%nat) [a; b; c] = (Ok 5%nat, h)
    ∧ h !! 5%nat
      = Some (mkArray int64 [5; 6]
                [3; 5; 7; 9; 11; 13;
                 4; 6; 8; 10; 12; 14;
                 5; 7; 9; 11; 13; 15;
                 6; 8; 10; 12; 14; 16;
                 7; 9; 11; 13; 15; 17]).
Proof. eexists. split; vm_compute; reflexivity. Qed.

(** ** Integer scalars *)

Ltac scalar_cases t :=
  destruct t; unfold representable, wrap; cbn [is_signed bits];
  repeat match goal with
         | |- context [2 ^ ?n] =>
             let v := eval vm_compute in (2 ^ n) in change (2 ^ n) with v
         end.

Lemma representable_wrap t z : representable t (wrap t z).
Proof.
  scalar_cases t;
    match goal with
    | |- context [?a mod ?b] => pose proof (Z.mod_pos_bound a b ltac:(lia))
    end; lia.
Qed.

(** No overflow, no wrap-around. *)
Lemma wrap_representable t z : representable t z → wrap t z = z.
Proof.
  intros Hz. revert Hz. scalar_cases t; intros Hz; rewrite Z.mod_small; lia.
Qed.

(** Every value of one of the element types is an int64 value. *)
Lemma representable_int64 t z : representable t z → representable int64 z.
Proof. intros Hz. revert Hz. scalar_cases t; unfold representable; cbn; lia. Qed.

Lemma promote_comm t t2 : promote t t2 = promote t2 t.
Proof. by destruct t, t2. Qed.

Lemma promote_int64_l t : promote int64 t = int64.
Proof. by destruct t. Qed.

Lemma scalar_add_comm t t2 x y : scalar_add t t2 x y = scalar_add t2 t y x.
Proof. unfold scalar_add. by rewrite promote_comm, Z.add_comm. Qed.

Lemma scalar_add_exact t t2 x y :
  representable (promote t t2) (x + y) → scalar_add t t2 x y = x + y.
Proof. apply wrap_representable. Qed.

(** A sum is stored in an int64 array as it is. *)
Lemma wrap_int64_scalar_add t t2 x y :
  wrap int64 (scalar_add t t2 x y) = scalar_add t t2 x y.
Proof. apply wrap_representable, (representable_int64 (promote t t2)), representable_wrap. Qed.

(** ** The shape broadcaster *)

Lemma dims_matchb_spec dim dim2 :
  dims_matchb (dim, dim2) = true ↔ dims_match dim dim2.
Proof. unfold dims_matchb, dims_match; simpl. lia. Qed.

Lemma broadcast_dim_comm dim dim2 :
  dims_match dim dim2 → broadcast_dim dim dim2 = broadcast_dim dim2 dim.
Proof.
  unfold dims_match, broadcast_dim. intros Hm.
  destruct (Z.eqb_spec dim dim2), (Z.eqb_spec dim2 dim),
    (Z.eqb_spec dim2 1), (Z.eqb_spec dim 1); simpl; lia.
Qed.

Lemma broadcasted_shape_loop_spec sh sh2 pairs acc :
  broadcasted_shape_loop sh sh2 pairs acc
  = if forallb dims_matchb pairs
    then Ok (reverse (uncurry broadcast_dim <$> pairs) ++ acc)
    else Raise (ValueError sh sh2).
Proof.
  revert acc. induction pairs as [|[dim dim2] pairs IH]; intros acc; [done|].
  cbn [broadcasted_shape_loop forallb]. rewrite fmap_cons.
  rewrite reverse_cons, <-(assoc_L (++)). unfold dims_matchb at 1; cbn [fst snd].
  destruct ((dim =? dim2) || (dim2 =? 1)) eqn:E.
  - rewrite IH. cbn. unfold broadcast_dim. by rewrite E.
  - cbn. destruct (dim =? 1) eqn:E1; [|done].
    rewrite IH. cbn. unfold broadcast_dim. by rewrite E.
Qed.

Lemma zip_reverse {A B} (l : list A) (k : list B) :
  length l = length k → zip (reverse l) (reverse k) = reverse (zip l k).
Proof.
  intros Hlen. apply Forall2_same_length in Hlen.
  induction Hlen as [|x y l k _ Hlen IH]; [done|].
  change (zip (x :: l) (y :: k)) with ((x, y) :: zip l k).
  rewrite !reverse_cons, zip_with_app, IH; [done|].
  rewrite !length_reverse. by eapply Forall2_length.
Qed.

Lemma forallb_reverse {A} (f : A → bool) l :
  forallb f (reverse l) = forallb f l.
Proof.
  induction l as [|x l IH]; [done|].
  rewrite reverse_cons, forallb_app, IH. cbn. destruct (f x), (forallb f l); done.
Qed.

(** On shapes of equal rank the right-to-left scan is an axis-wise map. *)
Lemma broadcasted_shape_spec sh sh2 :
  length sh = length sh2 →
  broadcasted_shape sh sh2
  = if forallb dims_matchb (zip sh sh2)
    then Ok (zip_with broadcast_dim sh sh2)
    else Raise (ValueError sh sh2).
Proof.
  intros Hlen. unfold broadcasted_shape.
  rewrite broadcasted_shape_loop_spec, zip_reverse, forallb_reverse by done.
  destruct (forallb _ _); [|done].
  rewrite <-fmap_reverse, reverse_involutive, (right_id_L [] (++)).
  f_equal. clear Hlen. revert sh2.
  induction sh as [|d sh IH]; intros [|d2 sh2]; cbn; [done..|]. by rewrite IH.
Qed.

Lemma forallb_dims_match sh sh2 :
  length sh = length sh2 →
  forallb dims_matchb (zip sh sh2) = true ↔ Forall2 dims_match sh sh2.
Proof.
  intros Hlen. apply Forall2_same_length in Hlen.
  induction Hlen as [|d d2 sh sh2 _ Hlen IH]; cbn.
  - split; [constructor|done].
  - rewrite andb_true_iff, IH, dims_matchb_spec, Forall2_cons. done.
Qed.

Lemma broadcasted_shape_Ok sh sh2 out :
  length sh = length sh2 →
  broadcasted_shape sh sh2 = Ok out
  ↔ Forall2 dims_match sh sh2 ∧ out = zip_with broadcast_dim sh sh2.
Proof.
  intros Hlen. rewrite broadcasted_shape_spec by done.
  pose proof (forallb_dims_match sh sh2 Hlen) as Hm.
  destruct (forallb _ _).
  - split; [intros [= <-]|intros [_ ->]]; [|done]. split; [by apply Hm|done].
  - split; [done|]. intros [Hf _]. apply Hm in Hf. done.
Qed.

Lemma broadcasted_shape_Raise sh sh2 e :
  length sh = length sh2 →
  broadcasted_shape sh sh2 = Raise e
  ↔ ¬ Forall2 dims_match sh sh2 ∧ e = ValueError sh sh2.
Proof.
  intros Hlen. rewrite broadcasted_shape_spec by done.
  pose proof (forallb_dims_match sh sh2 Hlen) as Hm.
  destruct (forallb _ _).
  - split; [done|]. intros [Hf _]. destruct Hf. by apply Hm.
  - split; [intros [= <-]|intros [_ ->]]; [|done].
    split; [|done]. intros Hf. apply Hm in Hf. done.
Qed.

(** ** Row-major indexing *)

Lemma in_bounds_length sh c : in_bounds sh c → length c = length sh.
Proof. apply Forall2_length. Qed.

Lemma in_bounds_size_pos sh c : in_bounds sh c → 0 < size_of sh.
Proof.
  induction 1 as [|i d c sh Hi _ IH]; cbn; [lia|].
  change (foldr Z.mul 1 sh) with (size_of sh). nia.
Qed.

Lemma locate_in_bounds sh c pos :
  in_bounds sh c → locate sh c pos = Ok (flat_index sh c pos, []).
Proof.
  intros Hc. revert pos. induction Hc as [|i d c sh Hi _ IH]; intros pos; [done|].
  cbn. destruct (Z.leb_spec (- d) i), (Z.ltb_spec i d); try lia. cbn.
  destruct (Z.ltb_spec i 0); try lia. apply IH.
Qed.

Lemma flat_index_range sh c pos :
  in_bounds sh c →
  pos * size_of sh ≤ flat_index sh c pos < (pos + 1) * size_of sh.
Proof.
  intros Hc. revert pos. induction Hc as [|i d c sh Hi Hc IH]; intros pos.
  - cbn. lia.
  - cbn. change (foldr Z.mul 1 sh) with (size_of sh).
    specialize (IH (pos * d + i)). apply in_bounds_size_pos in Hc. nia.
Qed.

Lemma flat_index_inj sh c c' pos pos' :
  in_bounds sh c → in_bounds sh c' →
  flat_index sh c pos = flat_index sh c' pos' → pos = pos' ∧ c = c'.
Proof.
  intros Hc. revert c' pos pos'.
  induction Hc as [|i d c sh Hi Hc IH]; intros c' pos pos' Hc' Heq.
  - apply Forall2_nil_inv_r in Hc' as ->. done.
  - apply Forall2_cons_inv_r in Hc' as (i' & c'' & Hi' & Hc' & ->).
    cbn in Heq. apply IH in Heq as [Hpos ->]; [|done].
    assert (pos = pos') by nia. split; [done|]. f_equal. nia.
Qed.

Lemma elem_of_ndindex sh c : c ∈ ndindex sh ↔ in_bounds sh c.
Proof.
  revert c. induction sh as [|d sh IH]; intros c; cbn.
  - rewrite list_elem_of_singleton. split; [intros ->; constructor|].
    intros Hc. by apply Forall2_nil_inv_r in Hc.
  - rewrite list_elem_of_bind. split.
    + intros (i & Hc & Hi). apply list_elem_of_fmap in Hc as (c' & -> & Hc').
      apply elem_of_seqZ in Hi. apply IH in Hc'. constructor; [lia|done].
    + intros Hc. apply Forall2_cons_inv_r in Hc as (i & c' & Hi & Hc' & ->).
      exists i. split; [|apply elem_of_seqZ; lia].
      apply list_elem_of_fmap. exists c'. split; [done|]. by apply IH.
Qed.

Lemma broadcasted_shape_stretches sh sh2 out :
  length sh = length sh2 →
  broadcasted_shape sh sh2 = Ok out →
  Forall2 stretches_to sh out ∧ Forall2 stretches_to sh2 out.
Proof.
  intros Hlen Hbs. apply broadcasted_shape_Ok in Hbs as [Hm ->]; [|done].
  clear Hlen. induction Hm as [|d d2 sh sh2 Hd _ [IH1 IH2]]; [by split|].
  cbn. assert (stretches_to d (broadcast_dim d d2)
               ∧ stretches_to d2 (broadcast_dim d d2)) as [??].
  { unfold stretches_to, broadcast_dim, dims_match in *.
    destruct (Z.eqb_spec d d2), (Z.eqb_spec d2 1); cbn; lia. }
  split; by constructor.
Qed.

Lemma modified_indices_in_bounds sh out c :
  Forall2 stretches_to sh out → in_bounds out c →
  in_bounds sh (modified_indices sh c).
Proof.
  intros Hs. revert c. induction Hs as [|d o sh out Hd _ IH]; intros c Hc.
  - apply Forall2_nil_inv_r in Hc as ->. constructor.
  - apply Forall2_cons_inv_r in Hc as (i & c' & Hi & Hc' & ->).
    unfold modified_indices. cbn. constructor; [|by apply IH].
    unfold stretches_to in Hd. destruct (Z.eqb_spec d 1); lia.
Qed.

Lemma getitem_in_bounds a c :
  in_bounds (shape a) c → getitem a c = Ok (Scalar (element a c)).
Proof. intros Hc. unfold getitem. by rewrite locate_in_bounds. Qed.

Lemma get_item_in_bounds a out c :
  Forall2 stretches_to (shape a) out → in_bounds out c →
  get_item a c = Ok (Scalar (element a (modified_indices (shape a) c))).
Proof.
  intros Hs Hc. unfold get_item.
  apply getitem_in_bounds. by eapply modified_indices_in_bounds.
Qed.

Lemma setitem_value_in_bounds a c v :
  in_bounds (shape a) c →
  setitem_value a c v
  = Ok (mkArray (dtype a) (shape a)
          (<[Z.to_nat (flat_index (shape a) c 0) := wrap (dtype a) v]> (data a))).
Proof. intros Hc. unfold setitem_value. by rewrite locate_in_bounds. Qed.

(** ** The rank aligner *)

Lemma size_of_prepend n sh : size_of (replicate n 1 ++ sh) = size_of sh.
Proof.
  induction n as [|n IH]; [done|].
  cbn. change (foldr Z.mul 1 (replicate n 1 ++ sh)) with (size_of (replicate n 1 ++ sh)).
  rewrite IH. destruct (size_of sh); done.
Qed.

Lemma has_negative_false sh : Forall (λ d, 0 ≤ d) sh → has_negative sh = false.
Proof.
  induction 1 as [|d sh Hd _ IH]; [done|].
  cbn. fold (has_negative sh). rewrite IH. destruct (Z.ltb_spec d 0); [lia|done].
Qed.

Lemma Forall_prepend n sh :
  Forall (λ d, 0 ≤ d) sh → Forall (λ d, 0 ≤ d) (replicate n 1 ++ sh).
Proof.
  intros Hsh. apply Forall_app. split; [|done].
  apply Forall_replicate. lia.
Qed.

Lemma wf_prepend_axes n a : wf a → wf (prepend_axes n a).
Proof.
  intros [Hsh Hlen]. split; cbn.
  - by apply Forall_prepend.
  - by rewrite size_of_prepend.
Qed.

(** Prepending axes of size 1 keeps the element count, so [np.resize]
    neither repeats nor cuts the buffer. *)
Lemma np_resize_prepend n a :
  wf a → np_resize a (replicate n 1 ++ shape a) = Ok (prepend_axes n a).
Proof.
  intros [Hsh Hlen]. unfold np_resize, prepend_axes.
  rewrite has_negative_false by by apply Forall_prepend.
  rewrite size_of_prepend, <-Hlen.
  destruct (Z.eqb_spec (Z.of_nat (length (data a))) 0) as [E|E]; cbn.
  - rewrite E. cbn. do 2 f_equal. symmetry. apply nil_length_inv. lia.
  - do 2 f_equal. set (n0 := Z.of_nat (length (data a))) in *.
    assert (- n0 / n0 = -1) as ->.
    { symmetry. apply Z.div_unique_exact; lia. }
    change (Z.to_nat (- (-1))) with 1%nat. cbn [replicate concat].
    rewrite (right_id_L [] (++)). apply take_ge. lia.
Qed.

(** Running the primitives of the store. *)
Lemma bind_Ok {A B} (m : Py A) (f : A → Py B) h a h' :
  m h = (Ok a, h') → (m ≫= f) h = f a h'.
Proof. intros Hm. unfold mbind, py_bind. by rewrite Hm. Qed.

Lemma bind_Raise {A B} (m : Py A) (f : A → Py B) h e h' :
  m h = (Raise e, h') → (m ≫= f) h = (Raise e, h').
Proof. intros Hm. unfold mbind, py_bind. by rewrite Hm. Qed.

Lemma deref_Some h r a : h !! r = Some a → deref r h = (Ok a, h).
Proof. intros Hr. unfold deref. by rewrite Hr. Qed.

Lemma rank_in_Some h r a :
  h !! r = Some a → rank_in h r = Z.of_nat (length (shape a)).
Proof. intros Hr. unfold rank_in. by rewrite Hr. Qed.

Section Aligner.

Variables (h : heap) (r1 r2 : ref) (a b : Array).
Hypothesis Hr1 : h !! r1 = Some a.
Hypothesis Hr2 : h !! r2 = Some b.

Lemma match_dimensions_equal_rank :
  length (shape a) = length (shape b) →
  match_dimensions r1 r2 h = (Ok (r1, r2), h).
Proof.
  intros Hrank. unfold match_dimensions.
  erewrite bind_Ok by by apply deref_Some.
  erewrite bind_Ok by by apply deref_Some.
  apply Nat.eqb_eq in Hrank. by rewrite Hrank.
Qed.

Lemma match_dimensions_lower_first :
  (length (shape a) < length (shape b))%nat → wf a →
  match_dimensions r1 r2 h
  = (Ok (length h, r2),
     h ++ [prepend_axes (length (shape b) - length (shape a)) a]).
Proof.
  intros Hrank Hwf. unfold match_dimensions.
  erewrite bind_Ok by by apply deref_Some.
  erewrite bind_Ok by by apply deref_Some.
  destruct (Nat.eqb_spec (length (shape a)) (length (shape b))); [lia|].
  erewrite bind_Ok by reflexivity.
  unfold minmax. rewrite (rank_in_Some _ _ _ Hr1), (rank_in_Some _ _ _ Hr2).
  destruct (Z.ltb_spec (Z.of_nat (length (shape b))) (Z.of_nat (length (shape a))));
    [lia|].
  destruct (Z.ltb_spec (Z.of_nat (length (shape a))) (Z.of_nat (length (shape b))));
    [|lia].
  erewrite bind_Ok by by apply deref_Some.
  erewrite bind_Ok by by apply deref_Some.
  replace (Z.to_nat _) with (length (shape b) - length (shape a))%nat by lia.
  erewrite bind_Ok by (unfold lift; by rewrite np_resize_prepend).
  done.
Qed.

Lemma match_dimensions_lower_second :
  (length (shape b) < length (shape a))%nat → wf b →
  match_dimensions r1 r2 h
  = (Ok (length h, r1),
     h ++ [prepend_axes (length (shape a) - length (shape b)) b]).
Proof.
  intros Hrank Hwf. unfold match_dimensions.
  erewrite bind_Ok by by apply deref_Some.
  erewrite bind_Ok by by apply deref_Some.
  destruct (Nat.eqb_spec (length (shape a)) (length (shape b))); [lia|].
  erewrite bind_Ok by reflexivity.
  unfold minmax. rewrite (rank_in_Some _ _ _ Hr1), (rank_in_Some _ _ _ Hr2).
  destruct (Z.ltb_spec (Z.of_nat (length (shape b))) (Z.of_nat (length (shape a))));
    [|lia].
  destruct (Z.ltb_spec (Z.of_nat (length (shape a))) (Z.of_nat (length (shape b))));
    [lia|].
  erewrite bind_Ok by by apply deref_Some.
  erewrite bind_Ok by by apply deref_Some.
  replace (Z.to_nat _) with (length (shape a) - length (shape b))%nat by lia.
  erewrite bind_Ok by (unfold lift; by rewrite np_resize_prepend).
  done.
Qed.

End Aligner.

(** ** The element-wise adder *)

Lemma setitem_in_bounds h out o c v :
  h !! out = Some o → in_bounds (shape o) c →
  setitem out c v h
  = (Ok tt, <[out := mkArray (dtype o) (shape o)
                       (<[Z.to_nat (flat_index (shape o) c 0) := wrap (dtype o) v]>
                          (data o))]> h).
Proof.
  intros Hout Hc. unfold setitem. by rewrite Hout, setitem_value_in_bounds.
Qed.

Section Loop.

Variables (p q out : ref) (a a2 : Array) (sh : Shape).
Hypothesis Hp : p ≠ out.
Hypothesis Hq : q ≠ out.
Hypothesis Ha : Forall2 stretches_to (shape a) sh.
Hypothesis Ha2 : Forall2 stretches_to (shape a2) sh.

Lemma add_at_run h d c :
  h !! p = Some a → h !! q = Some a2 → h !! out = Some (mkArray int64 sh d) →
  in_bounds sh c →
  add_at p q out c h
  = (Ok tt,
     <[out := mkArray int64 sh
                (<[Z.to_nat (flat_index sh c 0) := stretched_sum a a2 c]> d)]> h).
Proof.
  intros Hhp Hhq Hout Hc. unfold add_at.
  erewrite bind_Ok by by apply deref_Some.
  erewrite bind_Ok by (unfold lift; by erewrite get_item_in_bounds).
  erewrite bind_Ok by by apply deref_Some.
  erewrite bind_Ok by (unfold lift; by erewrite get_item_in_bounds).
  erewrite bind_Ok by reflexivity.
  rewrite (setitem_in_bounds h out (mkArray int64 sh d)) by done.
  cbn [dtype shape data]. unfold stretched_sum. by rewrite wrap_int64_scalar_add.
Qed.

(** The loop writes the stretched sum at the position of every
    coordinate it visits and touches no other cell. *)
Lemma for_each_add_at_run l : ∀ h d,
  Forall (in_bounds sh) l → Z.of_nat (length d) = size_of sh →
  h !! p = Some a → h !! q = Some a2 → h !! out = Some (mkArray int64 sh d) →
  ∃ d',
    for_each l (add_at p q out) h = (Ok tt, <[out := mkArray int64 sh d']> h)
    ∧ length d' = length d
    ∧ (∀ c, c ∈ l →
         nth (Z.to_nat (flat_index sh c 0)) d' 0 = stretched_sum a a2 c)
    ∧ (∀ k, (∀ c, c ∈ l → Z.to_nat (flat_index sh c 0) ≠ k) →
         nth k d' 0 = nth k d 0).
Proof.
  induction l as [|c l IH]; intros h d Hl Hd Hhp Hhq Hout.
  - exists d. rewrite list_insert_id by done.
    repeat split. intros c Hc. by apply elem_of_nil in Hc.
  - apply Forall_cons in Hl as [Hc Hl].
    set (k0 := Z.to_nat (flat_index sh c 0)).
    set (d1 := <[k0 := stretched_sum a a2 c]> d).
    destruct (IH (<[out := mkArray int64 sh d1]> h) d1) as (d' & Hrun & Hlen & Hin & Hout');
      [done|by unfold d1; rewrite length_insert
      |by rewrite list_lookup_insert_ne..| |].
    { apply list_lookup_insert_eq. by eapply lookup_lt_Some. }
    exists d'. split_and!.
    + cbn [for_each]. erewrite bind_Ok by by apply add_at_run.
      fold k0 d1. rewrite Hrun. by rewrite list_insert_insert_eq.
    + rewrite Hlen. apply length_insert.
    + intros c' [->|Hc']%elem_of_cons; [|by apply Hin].
      destruct (decide (k0 ∈ (λ c, Z.to_nat (flat_index sh c 0)) <$> l)) as [Hk|Hk].
      * apply list_elem_of_fmap in Hk as (c' & Hk & Hc').
        assert (c = c') as <-; [|by apply Hin].
        rewrite Forall_forall in Hl. specialize (Hl _ Hc').
        pose proof (flat_index_range sh c 0 Hc).
        pose proof (flat_index_range sh c' 0 Hl).
        eapply (flat_index_inj sh c c' 0 0); [done..|]. unfold k0 in Hk. lia.
      * rewrite Hout'.
        -- unfold d1. rewrite nth_lookup, list_lookup_insert_eq; [done|].
           pose proof (flat_index_range sh c 0 Hc) as Hr. unfold k0. lia.
        -- intros c' Hc' Heq. apply Hk. apply list_elem_of_fmap. by exists c'.
    + intros k Hk. rewrite Hout'.
      * unfold d1. rewrite !nth_lookup, list_lookup_insert_ne; [done|].
        apply Hk. by left.
      * intros c' Hc'. apply Hk. by right.
Qed.

End Loop.

Lemma size_of_nonneg sh : Forall (λ d, 0 ≤ d) sh → 0 ≤ size_of sh.
Proof.
  induction 1 as [|d sh Hd _ IH]; cbn; [lia|].
  change (foldr Z.mul 1 sh) with (size_of sh). nia.
Qed.

Lemma broadcasted_shape_nonneg sh sh2 out :
  length sh = length sh2 →
  Forall (λ d, 0 ≤ d) sh → Forall (λ d, 0 ≤ d) sh2 →
  broadcasted_shape sh sh2 = Ok out → Forall (λ d, 0 ≤ d) out.
Proof.
  intros Hlen Hsh Hsh2 Hbs.
  apply broadcasted_shape_Ok in Hbs as [_ ->]; [|done]. clear Hlen.
  revert sh2 Hsh2. induction Hsh as [|d sh Hd _ IH]; intros [|d2 sh2] Hsh2; cbn;
    [constructor..|].
  apply Forall_cons in Hsh2 as [Hd2 Hsh2]. constructor; [|by apply IH].
  unfold broadcast_dim. destruct ((d =? d2) || (d2 =? 1)); done.
Qed.

Section Aligned.

Variables (h : heap) (r1 r2 : ref) (a b : Array).
Hypothesis Hr1 : h !! r1 = Some a.
Hypothesis Hr2 : h !! r2 = Some b.
Hypothesis Hwa : wf a.
Hypothesis Hwb : wf b.

(** The aligner returns two well-formed arrays of equal rank and only
    ever appends to the store. *)
Lemma match_dimensions_inv p q h1 a' b' :
  match_dimensions r1 r2 h = (Ok (p, q), h1) →
  h1 !! p = Some a' → h1 !! q = Some b' →
  wf a' ∧ wf b' ∧ length (shape a') = length (shape b')
  ∧ (shape a', shape b') = aligned_shapes (shape a) (shape b)
  ∧ ∃ k, h1 = h ++ k.
Proof.
  intros Hmd Hp Hq. unfold aligned_shapes.
  destruct (lt_eq_lt_dec (length (shape a)) (length (shape b))) as [[Hlt|Heq]|Hgt].
  - rewrite (match_dimensions_lower_first h r1 r2 a b) in Hmd by done.
    injection Hmd as <- <- <-.
    rewrite list_lookup_middle in Hp by done. injection Hp as <-.
    rewrite lookup_app_l in Hq by by eapply lookup_lt_Some.
    assert (b' = b) as -> by congruence.
    destruct (Nat.eqb_spec (length (shape a)) (length (shape b))); [lia|].
    destruct (Nat.ltb_spec (length (shape a)) (length (shape b))); [|lia].
    split_and!; [by apply wf_prepend_axes|done| |done|by eexists].
    cbn. rewrite length_app, length_replicate. lia.
  - rewrite (match_dimensions_equal_rank h r1 r2 a b) in Hmd by done.
    injection Hmd as <- <- <-.
    assert (a' = a) as -> by congruence. assert (b' = b) as -> by congruence.
    apply Nat.eqb_eq in Heq as Heqb. rewrite Heqb.
    split_and!; [done..|]. exists []. by rewrite (right_id_L [] (++)).
  - rewrite (match_dimensions_lower_second h r1 r2 a b) in Hmd by done.
    injection Hmd as <- <- <-.
    rewrite list_lookup_middle in Hp by done. injection Hp as <-.
    rewrite lookup_app_l in Hq by by eapply lookup_lt_Some.
    assert (b' = a) as -> by congruence.
    destruct (Nat.eqb_spec (length (shape a)) (length (shape b))); [lia|].
    destruct (Nat.ltb_spec (length (shape a)) (length (shape b))); [lia|].
    split_and!; [by apply wf_prepend_axes|done| |done|by eexists].
    cbn. rewrite length_app, length_replicate. lia.
Qed.

(** [match_dimensions] does not raise. *)
Lemma match_dimensions_total :
  ∃ p q h1 a' b',
    match_dimensions r1 r2 h = (Ok (p, q), h1)
    ∧ h1 !! p = Some a' ∧ h1 !! q = Some b'.
Proof.
  destruct (lt_eq_lt_dec (length (shape a)) (length (shape b))) as [[Hlt|Heq]|Hgt].
  - eexists _, _, _, _, b. split; [by apply (match_dimensions_lower_first h r1 r2 a b)|].
    split; [by apply list_lookup_middle|].
    rewrite lookup_app_l by by eapply lookup_lt_Some. done.
  - eexists _, _, _, a, b. split; [by apply (match_dimensions_equal_rank h r1 r2 a b)|done].
  - eexists _, _, _, _, a. split; [by apply (match_dimensions_lower_second h r1 r2 a b)|].
    split; [by apply list_lookup_middle|].
    rewrite lookup_app_l by by eapply lookup_lt_Some. done.
Qed.

End Aligned.

Section Adder.

Variable uninit : nat → Z.
Variables (h : heap) (r1 r2 : ref) (p q : ref) (h1 : heap) (a' b' : Array).
Hypothesis Hmd : match_dimensions r1 r2 h = (Ok (p, q), h1).
Hypothesis Hp : h1 !! p = Some a'.
Hypothesis Hq : h1 !! q = Some b'.
Hypothesis Hwa : wf a'.
Hypothesis Hwb : wf b'.
Hypothesis Hrank : length (shape a') = length (shape b').

(** Incompatible shapes: the exception of [broadcasted_shape] leaves
    [add] before the output array is allocated. *)
Lemma add_run_Raise e :
  broadcasted_shape (shape a') (shape b') = Raise e →
  add uninit r1 r2 h = (Raise e, h1).
Proof.
  intros Hbs. unfold add.
  erewrite bind_Ok by exact Hmd. cbn beta iota.
  erewrite bind_Ok by by apply deref_Some.
  erewrite bind_Ok by by apply deref_Some.
  erewrite bind_Raise; [done|]. unfold lift. by rewrite Hbs.
Qed.

(** Compatible shapes: [add] appends one array of the broadcast shape
    to the store and returns it; every cell holds the sum of the
    stretch-indexed operands. *)
Lemma add_run_Ok sh :
  broadcasted_shape (shape a') (shape b') = Ok sh →
  ∃ d,
    add uninit r1 r2 h = (Ok (length h1), h1 ++ [mkArray int64 sh d])
    ∧ Z.of_nat (length d) = size_of sh
    ∧ ∀ c, in_bounds sh c → element (mkArray int64 sh d) c = stretched_sum a' b' c.
Proof.
  intros Hbs.
  pose proof (broadcasted_shape_stretches _ _ _ Hrank Hbs) as [Hsa Hsb].
  assert (Forall (λ d, 0 ≤ d) sh) as Hsh.
  { destruct Hwa, Hwb. by eapply broadcasted_shape_nonneg. }
  set (d0 := uninit <$> seq 0 (Z.to_nat (size_of sh))).
  assert (Z.of_nat (length d0) = size_of sh) as Hd0.
  { unfold d0. rewrite length_fmap, length_seq.
    apply size_of_nonneg in Hsh. lia. }
  destruct (for_each_add_at_run p q (length h1) a' b' sh) with
    (l := ndindex sh) (h := h1 ++ [mkArray int64 sh d0]) (d := d0)
    as (d & Hrun & Hlen & Hin & _).
  { apply lookup_lt_Some in Hp. lia. }
  { apply lookup_lt_Some in Hq. lia. }
  { done. }
  { done. }
  { apply Forall_forall. intros c. apply elem_of_ndindex. }
  { done. }
  { rewrite lookup_app_l by by eapply lookup_lt_Some. done. }
  { rewrite lookup_app_l by by eapply lookup_lt_Some. done. }
  { by apply list_lookup_middle. }
  exists d. split_and!.
  - unfold add.
    erewrite bind_Ok by exact Hmd. cbn beta iota.
    erewrite bind_Ok by by apply deref_Some.
    erewrite bind_Ok by by apply deref_Some.
    erewrite bind_Ok by (unfold lift; by rewrite Hbs).
    erewrite bind_Ok by (unfold np_empty; by rewrite has_negative_false).
    fold d0. erewrite bind_Ok by exact Hrun.
    unfold mret, py_ret. f_equal.
    rewrite insert_app_r_alt by done. by rewrite Nat.sub_diag.
  - lia.
  - intros c Hc. unfold element. cbn. apply Hin. by apply elem_of_ndindex.
Qed.

End Adder.

(** ** Frame: what a computation leaves alone *)

Create HintDb frame.

Lemma keeps_ret {A} n (a : A) (post : A → Prop) :
  post a → keeps n (mret a) post.
Proof. intros Ha h Hn. cbn. split_and!; [done..|]. by intros v [= <-]. Qed.

Lemma keeps_bind {A B} n (m : Py A) (f : A → Py B) mid post :
  keeps n m mid → (∀ v, mid v → keeps n (f v) post) →
  keeps n (m ≫= f) post.
Proof.
  intros Hm Hf h Hn. destruct (Hm h Hn) as (Ht & Hl & Hv).
  unfold mbind, py_bind. destruct (m h) as [[v|e] h'] eqn:E; cbn in *.
  - destruct (Hf v (Hv v eq_refl) h' Hl) as (Ht' & Hl' & Hv').
    split_and!; [congruence|done..].
  - split_and!; [done..|]. by intros v.
Qed.

Lemma keeps_weaken {A} n (m : Py A) (post post' : A → Prop) :
  keeps n m post → (∀ v, post v → post' v) → keeps n m post'.
Proof.
  intros Hm Hpost h Hn. destruct (Hm h Hn) as (Ht & Hl & Hv).
  split_and!; [done..|]. intros v Hv'. by apply Hpost, Hv.
Qed.

Lemma keeps_lift {A} n (r : result A) : keeps n (lift r) (λ _, True).
Proof. intros h Hn. cbn. by split_and!. Qed.

Lemma keeps_deref n r : keeps n (deref r) (λ _, True).
Proof. intros h Hn. unfold deref. destruct (h !! r); cbn; by split_and!. Qed.

Lemma keeps_current_heap n : keeps n current_heap (λ _, True).
Proof. intros h Hn. cbn. by split_and!. Qed.

(** A new object gets a reference beyond the ones that exist. *)
Lemma keeps_alloc n a : keeps n (alloc a) (λ r, (n ≤ r)%nat).
Proof.
  intros h Hn. cbn. split_and!.
  - by rewrite take_app_le.
  - rewrite length_app. lia.
  - intros v [= <-]. done.
Qed.

(** Writing to an object beyond the first [n] leaves those alone. *)
Lemma keeps_setitem n out c v :
  (n ≤ out)%nat → keeps n (setitem out c v) (λ _, True).
Proof.
  intros Hout h Hn. unfold setitem.
  destruct (h !! out); [|by split_and!].
  destruct (setitem_value _ _ _); cbn; [|by split_and!].
  split_and!; [by apply take_insert_ge|by rewrite length_insert|done].
Qed.

Lemma keeps_for_each {A} n (l : list A) body :
  (∀ x, keeps n (body x) (λ _, True)) →
  keeps n (for_each l body) (λ _, True).
Proof.
  intros Hbody. induction l as [|x l IH]; cbn [for_each].
  - by apply keeps_ret.
  - eapply keeps_bind; [apply Hbody|]. by intros _ _.
Qed.

#[local] Hint Resolve keeps_lift keeps_deref keeps_current_heap : frame.

Ltac frame_step :=
  eapply keeps_bind; [solve [eauto with frame]|intros ? _].

Lemma keeps_match_dimensions n r1 r2 :
  keeps n (match_dimensions r1 r2) (λ _, True).
Proof.
  unfold match_dimensions. do 2 frame_step.
  destruct (_ =? _)%nat; [by apply keeps_ret|].
  frame_step. destruct (minmax _ _ _) as [to_prepend larger].
  do 3 frame_step.
  eapply keeps_bind; [apply keeps_alloc|]. intros r _. by apply keeps_ret.
Qed.

Lemma keeps_np_empty uninit n sh :
  keeps n (np_empty uninit sh) (λ r, (n ≤ r)%nat).
Proof.
  unfold np_empty. destruct (has_negative sh); [|apply keeps_alloc].
  intros h Hn. cbn. by split_and!.
Qed.

Lemma keeps_add_at n arr arr2 out c :
  (n ≤ out)%nat → keeps n (add_at arr arr2 out c) (λ _, True).
Proof.
  intros Hout. unfold add_at. do 5 frame_step. by apply keeps_setitem.
Qed.

Lemma keeps_add uninit n r1 r2 :
  keeps n (add uninit r1 r2) (λ out, (n ≤ out)%nat).
Proof.
  unfold add. eapply keeps_bind; [apply keeps_match_dimensions|].
  intros [arr arr2] _. do 3 frame_step.
  eapply keeps_bind; [apply keeps_np_empty|]. intros out Hout.
  eapply keeps_bind.
  - apply keeps_for_each. intros c. by apply keeps_add_at.
  - intros _ _. by apply keeps_ret.
Qed.

(** ** Further facts used by the main results *)

Lemma not_dims_match_iff sh sh2 :
  length sh = length sh2 →
  ¬ Forall2 dims_match sh sh2 ↔ ∃ i, mismatch_at sh sh2 i.
Proof.
  intros Hlen. apply Forall2_same_length in Hlen.
  induction Hlen as [|d d2 sh sh2 _ Hlen IH].
  - split; [intros []; constructor|]. intros (i & ? & ? & ? & _). done.
  - rewrite Forall2_cons. split.
    + intros Hn. destruct (decide (dims_match d d2)) as [Hd|Hd].
      * destruct (proj1 IH) as (i & d' & d2' & ?); [tauto|].
        exists (S i), d', d2'. done.
      * exists 0%nat, d, d2. unfold dims_match in Hd. cbn. split_and!; (done || lia).
    + intros ([|i] & d' & d2' & H1 & H2 & Hne) [Hd Hm]; cbn in H1, H2.
      * unfold dims_match in Hd. simplify_eq. lia.
      * apply IH; [|done]. by exists i, d', d2'.
Qed.

Lemma dims_match_sym dim dim2 : dims_match dim dim2 → dims_match dim2 dim.
Proof. unfold dims_match. lia. Qed.

Lemma Forall2_dims_match_sym sh sh2 :
  Forall2 dims_match sh sh2 → Forall2 dims_match sh2 sh.
Proof. induction 1; constructor; [by apply dims_match_sym|done]. Qed.

Lemma zip_with_broadcast_dim_comm sh sh2 :
  Forall2 dims_match sh sh2 →
  zip_with broadcast_dim sh sh2 = zip_with broadcast_dim sh2 sh.
Proof.
  induction 1 as [|d d2 sh sh2 Hd _ IH]; [done|].
  cbn. by rewrite IH, broadcast_dim_comm.
Qed.

Lemma modified_indices_stretched sh c :
  length c = length sh → modified_indices sh c = stretched_coordinate sh c.
Proof.
  intros Hlen. symmetry in Hlen. apply Forall2_same_length in Hlen.
  unfold modified_indices, stretched_coordinate.
  induction Hlen as [|d i sh c _ _ IH]; [done|].
  cbn. f_equal.
  - destruct (Z.eqb_spec d 1) as [->|Hd]; [done|].
    destruct (decide _) as [[=]|]; done.
  - rewrite IH. by apply imap_ext.
Qed.

Lemma locate_prepend n sh c :
  locate (replicate n 1 ++ sh) (replicate n 0 ++ c) 0 = locate sh c 0.
Proof. induction n as [|n IH]; [done|]. cbn. apply IH. Qed.

Lemma getitem_prepend_axes n a c :
  getitem (prepend_axes n a) (replicate n 0 ++ c) = getitem a c.
Proof. unfold getitem, prepend_axes. cbn. by rewrite locate_prepend. Qed.

Lemma size_of_zero sh : 0 ∈ sh → size_of sh = 0.
Proof.
  induction sh as [|d sh IH]; [by intros ?%elem_of_nil|].
  intros [<-|Hin]%elem_of_cons; cbn; [done|].
  change (foldr Z.mul 1 sh) with (size_of sh). rewrite IH by done. lia.
Qed.

Lemma broadcast_zero sh sh2 :
  Forall2 dims_match sh sh2 → 0 ∈ sh ∨ 0 ∈ sh2 →
  0 ∈ zip_with broadcast_dim sh sh2.
Proof.
  induction 1 as [|d d2 sh sh2 Hd _ IH]; cbn.
  - intros [?%elem_of_nil|?%elem_of_nil]; done.
  - rewrite !elem_of_cons. intros Hz.
    destruct (decide (broadcast_dim d d2 = 0)) as [E|E]; [by left|right].
    apply IH. destruct Hz as [[Hz|?]|[Hz|?]]; [|by left| |by right];
      exfalso; apply E; unfold broadcast_dim, dims_match in *;
      destruct (Z.eqb_spec d d2), (Z.eqb_spec d2 1); cbn; lia.
Qed.

Lemma wfb_wf a : wfb a = true → wf a.
Proof.
  unfold wfb, wf. rewrite andb_true_iff, forallb_forall, Forall_forall.
  intros [Hsh Hlen]. split; [|lia].
  intros d Hd. apply list_elem_of_In, Hsh in Hd. lia.
Qed.

(** Whatever [add] raises on well-formed arrays is the exception of
    [broadcasted_shape] on the aligned shapes. *)
Lemma add_Raise_inv uninit h r1 r2 a b e h' :
  h !! r1 = Some a → h !! r2 = Some b → wf a → wf b →
  add uninit r1 r2 h = (Raise e, h') →
  e = ValueError (aligned_shapes (shape a) (shape b)).1
                 (aligned_shapes (shape a) (shape b)).2.
Proof.
  intros Hr1 Hr2 Hwa Hwb Hadd.
  destruct (match_dimensions_total h r1 r2 a b Hr1 Hr2 Hwa Hwb)
    as (p & q & h1 & a' & b' & Hmd & Hp & Hq).
  destruct (match_dimensions_inv h r1 r2 a b Hr1 Hr2 Hwa Hwb p q h1 a' b')
    as (Hwa' & Hwb' & Hrank & Hsh & _); [done..|].
  rewrite <-Hsh. cbn.
  destruct (broadcasted_shape (shape a') (shape b')) as [sh|e0] eqn:Hbs.
  - destruct (add_run_Ok uninit h r1 r2 p q h1 a' b' Hmd Hp Hq Hwa' Hwb' Hrank sh Hbs)
      as (d & Hrun & _). congruence.
  - pose proof (add_run_Raise uninit h r1 r2 p q h1 a' b' Hmd Hp Hq e0 Hbs) as Hrun.
    apply broadcasted_shape_Raise in Hbs as [_ ->]; [|done]. congruence.
Qed.

(** In particular the embedding of [add] never leaves what it models. *)
Lemma add_never_unmodelled uninit h r1 r2 a b h' :
  h !! r1 = Some a → h !! r2 = Some b → wf a → wf b →
  add uninit r1 r2 h ≠ (Raise Unmodelled, h').
Proof.
  intros Hr1 Hr2 Hwa Hwb Hadd.
  by apply (add_Raise_inv uninit h r1 r2 a b) in Hadd.
Qed.

(** ** Main results *)

(** C1, refuted as stated.  Adding the int64 arrays [2^63 - 1] and [1]
    stores -2^63, not the sum 2^63: numpy's scalar addition wraps around. *)
Lemma add_wraps_around :
  ¬ stores_sums (λ _, 0)
      [mkArray int64 [1] [2 ^ 63 - 1]; mkArray int64 [1] [1]] 0%nat 1%nat.
Proof.
  intros Hspec.
  specialize (Hspec 0%nat 1%nat _ _ _ 2%nat _ _ [0] (2 ^ 63 - 1) 1
                eq_refl eq_refl eq_refl eq_refl eq_refl).
  discriminate Hspec; [repeat constructor; lia|reflexivity..].
Qed.

(** C1, amended.  When the shapes of the two rank-aligned operands are
    broadcast-compatible, [add] returns a new int64 array of the
    broadcast shape, and every coordinate of it holds the numpy sum of
    the two stretch-indexed operand elements: their integer sum wrapped
    into the type numpy promotes the two element types to.  That is the
    integer sum itself whenever the promoted type can represent it.  In
    particular, adding [[1,2,3],[4,5,6]] and [[10,20,30]] gives
    [[11,22,33],[14,25,36]]. *)
Theorem add_sums_stretched_elements uninit h r1 r2 a b p q h1 a' b' sh :
  h !! r1 = Some a → h !! r2 = Some b → wf a → wf b →
  match_dimensions r1 r2 h = (Ok (p, q), h1) →
  h1 !! p = Some a' → h1 !! q = Some b' →
  broadcasted_shape (shape a') (shape b') = Ok sh →
  (∃ out h' o,
     add uninit r1 r2 h = (Ok out, h')
     ∧ h !! out = None
     ∧ h' !! out = Some o
     ∧ dtype o = int64 ∧ shape o = sh ∧ wf o
     ∧ ∀ c, in_bounds sh c →
         ∃ x y,
           get_item a' c = Ok (Scalar x)
           ∧ get_item b' c = Ok (Scalar y)
           ∧ getitem o c = Ok (Scalar (scalar_add (dtype a') (dtype b') x y))
           ∧ (representable (promote (dtype a') (dtype b')) (x + y) →
              getitem o c = Ok (Scalar (x + y))))
  ∧ add uninit 0%nat 1%nat [a23; b13]
    = (Ok 2%nat, [a23; b13; mkArray int64 [2; 3] [11; 22; 33; 14; 25; 36]]).
Proof.
  intros Hr1 Hr2 Hwa Hwb Hmd Hp Hq Hbs. split; [|reflexivity].
  destruct (match_dimensions_inv h r1 r2 a b Hr1 Hr2 Hwa Hwb p q h1 a' b')
    as (Hwa' & Hwb' & Hrank & _ & k & ->); [done..|].
  destruct (add_run_Ok uninit h r1 r2 p q (h ++ k) a' b' Hmd Hp Hq Hwa' Hwb' Hrank sh Hbs)
    as (d & Hrun & Hlen & Hel).
  pose proof (broadcasted_shape_stretches _ _ _ Hrank Hbs) as [Hsa Hsb].
  exists (length (h ++ k)), ((h ++ k) ++ [mkArray int64 sh d]), (mkArray int64 sh d).
  split_and!; [done| |by apply list_lookup_middle|done|done| |].
  - apply lookup_ge_None. rewrite length_app. lia.
  - split; [|done]. destruct Hwa', Hwb'. by eapply broadcasted_shape_nonneg.
  - intros c Hc. eexists _, _.
    split; [by eapply get_item_in_bounds|].
    split; [by eapply get_item_in_bounds|].
    rewrite getitem_in_bounds, Hel by done. split; [done|].
    intros Hr. unfold stretched_sum. by rewrite scalar_add_exact.
Qed.

Lemma add_sums_stretched_elements_witness :
  (∃ out h' o,
     add (λ _, 0) 0%nat 1%nat [a23; b3] = (Ok out, h')
     ∧ [a23; b3] !! out = None
     ∧ h' !! out = Some o
     ∧ dtype o = int64 ∧ shape o = [2; 3] ∧ wf o
     ∧ ∀ c, in_bounds [2; 3] c →
         ∃ x y,
           get_item b13 c = Ok (Scalar x)
           ∧ get_item a23 c = Ok (Scalar y)
           ∧ getitem o c = Ok (Scalar (scalar_add (dtype b13) (dtype a23) x y))
           ∧ (representable (promote (dtype b13) (dtype a23)) (x + y) →
              getitem o c = Ok (Scalar (x + y))))
  ∧ add (λ _, 0) 0%nat 1%nat [a23; b13]
    = (Ok 2%nat, [a23; b13; mkArray int64 [2; 3] [11; 22; 33; 14; 25; 36]]).
Proof.
  apply (add_sums_stretched_elements (λ _, 0) [a23; b3] 0%nat 1%nat a23 b3
           2%nat 0%nat [a23; b3; b13] b13 a23 [2; 3]);
    try reflexivity; apply wfb_wf; reflexivity.
Defined.

(** C2.  On shapes of equal rank, [broadcasted_shape] raises exactly
    when some axis pair has unequal sizes neither of which is 1, and
    then [add] raises the same exception: it returns no array, and the
    output array has not even been allocated. *)
Theorem broadcast_error_iff_mismatch (sh sh2 : Shape) :
  length sh = length sh2 →
  ((∃ e, broadcasted_shape sh sh2 = Raise e) ↔ ∃ i, mismatch_at sh sh2 i)
  ∧ ∀ e, broadcasted_shape sh sh2 = Raise e →
      e = ValueError sh sh2
      ∧ ∀ uninit h r1 r2 a b p q h1 a' b',
          h !! r1 = Some a → h !! r2 = Some b → wf a → wf b →
          match_dimensions r1 r2 h = (Ok (p, q), h1) →
          h1 !! p = Some a' → h1 !! q = Some b' →
          shape a' = sh → shape b' = sh2 →
          add uninit r1 r2 h = (Raise e, h1).
Proof.
  intros Hlen. split.
  - rewrite <-not_dims_match_iff by done. split.
    + intros [e He]. by apply broadcasted_shape_Raise in He as [? _].
    + intros Hn. exists (ValueError sh sh2). by apply broadcasted_shape_Raise.
  - intros e He. split; [by apply broadcasted_shape_Raise in He as [_ ?]|].
    intros uninit h r1 r2 a b p q h1 a' b' Hr1 Hr2 Hwa Hwb Hmd Hp Hq <- <-.
    destruct (match_dimensions_inv h r1 r2 a b Hr1 Hr2 Hwa Hwb p q h1 a' b')
      as (Hwa' & Hwb' & Hrank & _); [done..|].
    by eapply add_run_Raise.
Qed.

Lemma broadcast_error_iff_mismatch_witness :
  length [1; 2] = length [2; 3]
  ∧ (∃ i, mismatch_at [1; 2] [2; 3] i)
  ∧ add (λ _, 0) 0%nat 1%nat [a23; b2]
    = (Raise (ValueError [1; 2] [2; 3]), [a23; b2; mkArray int64 [1; 2] [10; 20]]).
Proof.
  split; [reflexivity|].
  destruct (broadcast_error_iff_mismatch [1; 2] [2; 3] eq_refl) as [Hiff Hadd].
  split.
  - apply Hiff. eexists. reflexivity.
  - apply (proj2 (Hadd _ eq_refl)) with
      (a := a23) (b := b2) (p := 2%nat) (q := 0%nat)
      (a' := mkArray int64 [1; 2] [10; 20]) (b' := a23);
      try reflexivity; apply wfb_wf; reflexivity.
Defined.

(** C3, refuted as stated.  Adding an array of shape (2,3) and one of
    shape (2,) raises an exception that carries (1,2) and (2,3): the
    lower-rank shape is reported padded, and first. *)
Lemma add_error_not_original_shapes :
  ¬ reports_original_shapes (λ _, 0) [a23; b2] 0%nat 1%nat.
Proof.
  intros Hspec.
  specialize (Hspec a23 b2 (ValueError [1; 2] [2; 3]) _ eq_refl eq_refl eq_refl).
  discriminate Hspec.
Qed.

(** C3, amended.  An exception raised by [add] is the [ValueError] of
    [broadcasted_shape] and carries the two shapes in the form and order
    in which the rank aligner returned them: the original shapes when the
    ranks are equal, otherwise the lower-rank shape padded with leading
    1s followed by the higher-rank shape. *)
Theorem add_error_reports_aligned_shapes uninit h r1 r2 a b e h' :
  h !! r1 = Some a → h !! r2 = Some b → wf a → wf b →
  add uninit r1 r2 h = (Raise e, h') →
  e = ValueError (aligned_shapes (shape a) (shape b)).1
                 (aligned_shapes (shape a) (shape b)).2
  ∧ (length (shape a) = length (shape b) →
     e = ValueError (shape a) (shape b))
  ∧ ((length (shape a) < length (shape b))%nat →
     e = ValueError
           (replicate (length (shape b) - length (shape a)) 1 ++ shape a)
           (shape b))
  ∧ ((length (shape b) < length (shape a))%nat →
     e = ValueError
           (replicate (length (shape a) - length (shape b)) 1 ++ shape b)
           (shape a)).
Proof.
  intros Hr1 Hr2 Hwa Hwb Hadd.
  apply (add_Raise_inv uninit h r1 r2 a b) in Hadd as ->; [|done..].
  split; [done|]. unfold aligned_shapes.
  destruct (Nat.eqb_spec (length (shape a)) (length (shape b)));
    [|destruct (Nat.ltb_spec (length (shape a)) (length (shape b)))];
    split_and!; intros; (done || lia).
Qed.

Lemma add_error_reports_aligned_shapes_witness :
  ValueError [1; 2] [2; 3]
  = ValueError (aligned_shapes [2; 3] [2]).1 (aligned_shapes [2; 3] [2]).2
  ∧ (length [2; 3] = length [2] →
     ValueError [1; 2] [2; 3] = ValueError [2; 3] [2])
  ∧ ((length [2; 3] < length [2])%nat →
     ValueError [1; 2] [2; 3]
     = ValueError (replicate (length [2] - length [2; 3]) 1 ++ [2; 3]) [2])
  ∧ ((length [2] < length [2; 3])%nat →
     ValueError [1; 2] [2; 3]
     = ValueError (replicate (length [2; 3] - length [2]) 1 ++ [2]) [2; 3]).
Proof.
  apply (add_error_reports_aligned_shapes (λ _, 0) [a23; b2] 0%nat 1%nat a23 b2
           (ValueError [1; 2] [2; 3]) [a23; b2; mkArray int64 [1; 2] [10; 20]]);
    try reflexivity; apply wfb_wf; reflexivity.
Defined.

(** C4, refuted as stated.  Given an array of shape (2,3) and then one
    of shape (3,), the aligner returns the padded second operand first. *)
Lemma match_dimensions_swaps_operands :
  ¬ aligns_in_operand_order [a23; b3] 0%nat 1%nat.
Proof.
  intros Hspec.
  destruct (Hspec a23 b3 eq_refl eq_refl) as (p & q & h1 & Hmd & Hp & _).
  injection Hmd as <- <- <-. discriminate Hp.
Qed.

(** C4, amended.  For operands of differing ranks the aligner does not
    fail and returns the lower-rank operand first, as a new array with
    (rank difference) leading axes of size 1 prepended, and the
    higher-rank operand second, unchanged (the very same object).  The
    order is the operand order exactly when the first operand has the
    lower rank. *)
Theorem match_dimensions_lower_rank_first h r1 r2 a b :
  h !! r1 = Some a → h !! r2 = Some b → wf a → wf b →
  length (shape a) ≠ length (shape b) →
  ∃ p q h1 padded,
    match_dimensions r1 r2 h = (Ok (p, q), h1)
    ∧ h1 !! p = Some padded
    ∧ if (length (shape a) <? length (shape b))%nat
      then shape padded
           = replicate (length (shape b) - length (shape a)) 1 ++ shape a
           ∧ q = r2 ∧ h1 !! q = Some b
      else shape padded
           = replicate (length (shape a) - length (shape b)) 1 ++ shape b
           ∧ q = r1 ∧ h1 !! q = Some a.
Proof.
  intros Hr1 Hr2 Hwa Hwb Hne.
  destruct (Nat.ltb_spec (length (shape a)) (length (shape b))) as [Hlt|Hge].
  - eexists _, _, _, _.
    split; [by apply (match_dimensions_lower_first h r1 r2 a b)|].
    split; [by apply list_lookup_middle|].
    split_and!; [done..|]. by apply lookup_app_l_Some.
  - eexists _, _, _, _.
    split; [apply (match_dimensions_lower_second h r1 r2 a b); (done || lia)|].
    split; [by apply list_lookup_middle|].
    split_and!; [done..|]. by apply lookup_app_l_Some.
Qed.

Lemma match_dimensions_lower_rank_first_witness :
  ∃ p q h1 padded,
    match_dimensions 0%nat 1%nat [a23; b3] = (Ok (p, q), h1)
    ∧ h1 !! p = Some padded
    ∧ if (length (shape a23) <? length (shape b3))%nat
      then shape padded
           = replicate (length (shape b3) - length (shape a23)) 1 ++ shape a23
           ∧ q = 1%nat ∧ h1 !! q = Some b3
      else shape padded
           = replicate (length (shape a23) - length (shape b3)) 1 ++ shape b3
           ∧ q = 0%nat ∧ h1 !! q = Some a23.
Proof.
  apply (match_dimensions_lower_rank_first [a23; b3] 0%nat 1%nat a23 b3);
    try reflexivity; try (apply wfb_wf; reflexivity). discriminate.
Defined.

(** C5.  Whatever a call of [add] does, return or raise, every array
    that existed before the call, the two arguments among them, has the
    same shape and contents afterwards, and a returned array is an
    object that did not exist before. *)
Theorem add_keeps_inputs uninit h r1 r2 a b :
  h !! r1 = Some a → h !! r2 = Some b →
  (add uninit r1 r2 h).2 !! r1 = Some a
  ∧ (add uninit r1 r2 h).2 !! r2 = Some b
  ∧ (∀ r x, h !! r = Some x → (add uninit r1 r2 h).2 !! r = Some x)
  ∧ ∀ out, (add uninit r1 r2 h).1 = Ok out → h !! out = None.
Proof.
  intros Hr1 Hr2.
  destruct (keeps_add uninit (length h) r1 r2 h) as (Htake & _ & Hout); [done|].
  assert (∀ r x, h !! r = Some x → (add uninit r1 r2 h).2 !! r = Some x) as Hall.
  { intros r x Hr. pose proof (lookup_lt_Some _ _ _ Hr) as Hlt.
    rewrite <-(lookup_take_lt _ (length h)), Htake, take_ge by lia. done. }
  split_and!; [by apply Hall..|done|].
  intros out Hres. apply lookup_ge_None. by apply Hout.
Qed.

Lemma add_keeps_inputs_witness :
  (add (λ _, 0) 0%nat 1%nat [a23; b2]).2 !! 0%nat = Some a23
  ∧ (add (λ _, 0) 0%nat 1%nat [a23; b2]).2 !! 1%nat = Some b2
  ∧ (∀ r x, [a23; b2] !! r = Some x →
       (add (λ _, 0) 0%nat 1%nat [a23; b2]).2 !! r = Some x)
  ∧ ∀ out, (add (λ _, 0) 0%nat 1%nat [a23; b2]).1 = Ok out →
      [a23; b2] !! out = None.
Proof.
  apply (add_keeps_inputs (λ _, 0) [a23; b2] 0%nat 1%nat a23 b2); reflexivity.
Defined.

(** C6.  For an array and a coordinate of the same rank that lies within
    the bounds of a broadcast output shape of that array, the stretched
    indexer returns the element of the array at the coordinate obtained
    by putting 0 on every axis where the array has size 1 and keeping
    the other components; that coordinate is within the array's own
    bounds. *)
Theorem get_item_reads_stretched_coordinate a sh2 out c :
  length (shape a) = length sh2 →
  broadcasted_shape (shape a) sh2 = Ok out
  ∨ broadcasted_shape sh2 (shape a) = Ok out →
  in_bounds out c →
  length c = length (shape a)
  ∧ in_bounds (shape a) (stretched_coordinate (shape a) c)
  ∧ get_item a c = getitem a (stretched_coordinate (shape a) c)
  ∧ get_item a c = Ok (Scalar (element a (stretched_coordinate (shape a) c))).
Proof.
  intros Hlen Hbs Hc.
  assert (Forall2 stretches_to (shape a) out) as Hs.
  { destruct Hbs as [Hbs|Hbs];
      by apply broadcasted_shape_stretches in Hbs as [??]. }
  assert (length c = length (shape a)) as Hrank.
  { apply in_bounds_length in Hc. apply Forall2_length in Hs. lia. }
  rewrite <-modified_indices_stretched by done.
  split_and!; [done|by eapply modified_indices_in_bounds|done|].
  by eapply get_item_in_bounds.
Qed.

Lemma get_item_reads_stretched_coordinate_witness :
  length [1; 2] = length (shape b13)
  ∧ in_bounds (shape b13) (stretched_coordinate (shape b13) [1; 2])
  ∧ get_item b13 [1; 2] = getitem b13 (stretched_coordinate (shape b13) [1; 2])
  ∧ get_item b13 [1; 2]
    = Ok (Scalar (element b13 (stretched_coordinate (shape b13) [1; 2]))).
Proof.
  apply (get_item_reads_stretched_coordinate b13 [2; 3] [2; 3] [1; 2]).
  - reflexivity.
  - right. reflexivity.
  - repeat constructor; lia.
Defined.

(** C7.  On shapes of equal rank the shape computation is symmetric: the
    two argument orders give the same shape whenever one of them gives a
    shape, and one raises exactly when the other does. *)
Theorem broadcasted_shape_symmetric (sh sh2 : Shape) :
  length sh = length sh2 →
  (∀ out, broadcasted_shape sh sh2 = Ok out ↔ broadcasted_shape sh2 sh = Ok out)
  ∧ ((∃ e, broadcasted_shape sh sh2 = Raise e)
     ↔ ∃ e, broadcasted_shape sh2 sh = Raise e).
Proof.
  intros Hlen.
  assert (∀ out, broadcasted_shape sh sh2 = Ok out
                 ↔ broadcasted_shape sh2 sh = Ok out) as Hok.
  { intros out. rewrite !broadcasted_shape_Ok by done.
    split; intros [Hm ->]; (split; [by apply Forall2_dims_match_sym|]).
    - by apply zip_with_broadcast_dim_comm.
    - symmetry. by apply zip_with_broadcast_dim_comm, Forall2_dims_match_sym. }
  split; [done|].
  split; intros [e He]; apply broadcasted_shape_Raise in He as [Hn _]; try done;
    eexists; (apply broadcasted_shape_Raise; [done|]); (split; [|done]);
    intros Hm; apply Hn; by apply Forall2_dims_match_sym.
Qed.

Lemma broadcasted_shape_symmetric_witness :
  (∀ out, broadcasted_shape [2; 1] [1; 3] = Ok out
          ↔ broadcasted_shape [1; 3] [2; 1] = Ok out)
  ∧ ((∃ e, broadcasted_shape [2; 1] [1; 3] = Raise e)
     ↔ ∃ e, broadcasted_shape [1; 3] [2; 1] = Raise e).
Proof. apply (broadcasted_shape_symmetric [2; 1] [1; 3]). reflexivity. Defined.

(** C8.  On two arrays of equal rank the aligner does nothing, whatever
    the sizes of their axes: it returns the two arguments themselves, in
    order, and leaves the store as it was.  In particular this is so when
    an array is aligned with itself. *)
Theorem match_dimensions_equal_rank_noop h r1 r2 a b :
  h !! r1 = Some a → h !! r2 = Some b →
  length (shape a) = length (shape b) →
  match_dimensions r1 r2 h = (Ok (r1, r2), h)
  ∧ match_dimensions r1 r1 h = (Ok (r1, r1), h).
Proof.
  intros Hr1 Hr2 Hrank. split.
  - by apply (match_dimensions_equal_rank h r1 r2 a b).
  - by apply (match_dimensions_equal_rank h r1 r1 a a).
Qed.

Lemma match_dimensions_equal_rank_noop_witness :
  match_dimensions 0%nat 1%nat [a23; b13] = (Ok (0%nat, 1%nat), [a23; b13])
  ∧ match_dimensions 0%nat 0%nat [a23; b13] = (Ok (0%nat, 0%nat), [a23; b13]).
Proof.
  apply (match_dimensions_equal_rank_noop [a23; b13] 0%nat 1%nat a23 b13);
    reflexivity.
Defined.

(** C9.  For two arrays of differing ranks, the padded array the aligner
    creates has the shape of the lower-rank argument behind (rank
    difference) axes of size 1, the same number of elements, and the same
    buffer: [np.resize] repeats, cuts and reorders nothing.  Indexing it
    with that many leading zeros in front of any index gives what the
    index gives on the original; at a coordinate of the original this is
    the original element. *)
Theorem padded_array_same_elements h r1 r2 a b :
  h !! r1 = Some a → h !! r2 = Some b → wf a → wf b →
  length (shape a) ≠ length (shape b) →
  ∃ p q h1 padded,
    match_dimensions r1 r2 h = (Ok (p, q), h1)
    ∧ h1 !! p = Some padded
    ∧ let lower := if (length (shape a) <? length (shape b))%nat then a else b in
      let higher := if (length (shape a) <? length (shape b))%nat then b else a in
      let n := (length (shape higher) - length (shape lower))%nat in
      shape padded = replicate n 1 ++ shape lower
      ∧ data padded = data lower
      ∧ size_of (shape padded) = size_of (shape lower)
      ∧ (∀ c, getitem padded (replicate n 0 ++ c) = getitem lower c)
      ∧ ∀ c, in_bounds (shape lower) c →
          getitem padded (replicate n 0 ++ c) = Ok (Scalar (element lower c)).
Proof.
  intros Hr1 Hr2 Hwa Hwb Hne.
  destruct (Nat.ltb_spec (length (shape a)) (length (shape b))) as [Hlt|Hge].
  - eexists _, _, _, _.
    split; [by apply (match_dimensions_lower_first h r1 r2 a b)|].
    split; [by apply list_lookup_middle|]. cbn zeta.
    split_and!; [done..|apply size_of_prepend|apply getitem_prepend_axes|].
    intros c Hc. by rewrite getitem_prepend_axes, getitem_in_bounds.
  - eexists _, _, _, _.
    split; [apply (match_dimensions_lower_second h r1 r2 a b); (done || lia)|].
    split; [by apply list_lookup_middle|]. cbn zeta.
    split_and!; [done..|apply size_of_prepend|apply getitem_prepend_axes|].
    intros c Hc. by rewrite getitem_prepend_axes, getitem_in_bounds.
Qed.

Lemma padded_array_same_elements_witness :
  ∃ p q h1 padded,
    match_dimensions 0%nat 1%nat [a23; b3] = (Ok (p, q), h1)
    ∧ h1 !! p = Some padded
    ∧ shape padded = replicate 1 1 ++ shape b3
      ∧ data padded = data b3
      ∧ size_of (shape padded) = size_of (shape b3)
      ∧ (∀ c, getitem padded (replicate 1 0 ++ c) = getitem b3 c)
      ∧ ∀ c, in_bounds (shape b3) c →
          getitem padded (replicate 1 0 ++ c) = Ok (Scalar (element b3 c)).
Proof.
  apply (padded_array_same_elements [a23; b3] 0%nat 1%nat a23 b3);
    try reflexivity; try (apply wfb_wf; reflexivity). discriminate.
Defined.

(** C10.  Axes of size 0 are accepted.  For two shapes of equal rank in
    which every axis pair is equal or contains a 1, [broadcasted_shape]
    returns a shape; an axis where a 0 meets a 0 or a 1 has size 0 in it.
    If some axis of either shape has size 0, [add] on arrays of these
    shapes raises nothing and returns a new array of the broadcast shape
    with no elements. *)
Theorem zero_sized_axes_accepted (sh sh2 : Shape) :
  length sh = length sh2 →
  Forall2 (λ dim dim2, dim = dim2 ∨ dim = 1 ∨ dim2 = 1) sh sh2 →
  ∃ out,
    broadcasted_shape sh sh2 = Ok out
    ∧ (∀ i dim dim2,
         sh !! i = Some dim → sh2 !! i = Some dim2 →
         (dim = 0 ∧ dim2 = 1) ∨ (dim = 1 ∧ dim2 = 0) ∨ (dim = 0 ∧ dim2 = 0) →
         out !! i = Some 0)
    ∧ ∀ uninit h r1 r2 a b,
        h !! r1 = Some a → h !! r2 = Some b → wf a → wf b →
        shape a = sh → shape b = sh2 →
        0 ∈ sh ∨ 0 ∈ sh2 →
        add uninit r1 r2 h = (Ok (length h), h ++ [mkArray int64 out []])
        ∧ size_of out = 0.
Proof.
  intros Hlen Hm.
  assert (Forall2 dims_match sh sh2) as Hm'.
  { eapply Forall2_impl; [exact Hm|]. unfold dims_match. cbn. lia. }
  exists (zip_with broadcast_dim sh sh2). split_and!.
  - by apply broadcasted_shape_Ok.
  - intros i dim dim2 Hi Hi2 Hz. rewrite lookup_zip_with, Hi, Hi2. cbn.
    f_equal. unfold broadcast_dim.
    destruct (Z.eqb_spec dim dim2), (Z.eqb_spec dim2 1); cbn; lia.
  - intros uninit h r1 r2 a b Hr1 Hr2 Hwa Hwb <- <- Hz.
    pose proof (size_of_zero _ (broadcast_zero _ _ Hm' Hz)) as Hsize.
    split; [|done].
    destruct (add_run_Ok uninit h r1 r2 r1 r2 h a b) with
      (sh := zip_with broadcast_dim (shape a) (shape b))
      as (d & Hrun & Hd & _); [|done..| |].
    + by apply (match_dimensions_equal_rank h r1 r2 a b).
    + by apply broadcasted_shape_Ok.
    + rewrite Hrun. rewrite Hsize in Hd.
      assert (d = []) as -> by (apply nil_length_inv; lia). done.
Qed.

Lemma zero_sized_axes_accepted_witness :
  length [0; 3] = length [1; 3]
  ∧ broadcasted_shape [0; 3] [1; 3] = Ok [0; 3]
  ∧ add (λ _, 0) 0%nat 1%nat [mkArray int64 [0; 3] []; b13]
    = (Ok 2%nat, [mkArray int64 [0; 3] []; b13; mkArray int64 [0; 3] []]).
Proof.
  split; [reflexivity|].
  destruct (zero_sized_axes_accepted [0; 3] [1; 3] eq_refl) as (out & Hbs & _ & Hadd).
  { repeat constructor; lia. }
  injection Hbs as <-. split; [reflexivity|].
  apply (Hadd (λ _, 0) [mkArray int64 [0; 3] []; b13] 0%nat 1%nat (mkArray int64 [0; 3] []) b13);
    try reflexivity; try (apply wfb_wf; reflexivity).
  left. by left.
Defined.

Example add_zero_sized uninit :
  add uninit 0%nat 1%nat [mkArray int64 [0; 3] []; b13]
  = (Ok 2%nat, [mkArray int64 [0; 3] []; b13; mkArray int64 [0; 3] []]).
Proof. reflexivity. Qed.

(** * Further properties of the code *)

(** ** Positions and coordinates *)

Lemma unravel_in_bounds sh : ∀ k,
  Forall (λ d, 0 ≤ d) sh → 0 ≤ k < size_of sh → in_bounds sh (unravel sh k).
Proof.
  induction sh as [|d sh IH]; intros k Hsh Hk; [constructor|].
  apply Forall_cons in Hsh as [Hd Hsh].
  pose proof (size_of_nonneg sh Hsh) as Hs.
  change (size_of (d :: sh)) with (d * size_of sh) in Hk.
  assert (0 < size_of sh) as Hpos by nia.
  cbn [unravel]. constructor.
  - split; [apply Z.div_pos; lia|]. apply Z.div_lt_upper_bound; [done|]. nia.
  - apply IH; [done|]. by apply Z.mod_pos_bound.
Qed.

Lemma flat_index_unravel sh : ∀ k pos,
  Forall (λ d, 0 ≤ d) sh → 0 ≤ k < size_of sh →
  flat_index sh (unravel sh k) pos = pos * size_of sh + k.
Proof.
  induction sh as [|d sh IH]; intros k pos Hsh Hk.
  - cbn in *. lia.
  - apply Forall_cons in Hsh as [Hd Hsh].
    pose proof (size_of_nonneg sh Hsh) as Hs.
    change (size_of (d :: sh)) with (d * size_of sh) in *.
    assert (0 < size_of sh) as Hpos by nia.
    cbn [unravel flat_index]. rewrite IH; [|done|by apply Z.mod_pos_bound].
    pose proof (Z.div_mod k (size_of sh)). lia.
Qed.

(** A buffer is determined by the elements at the coordinates of its
    shape. *)
Lemma data_ext sh (d d' : list Z) :
  Forall (λ x, 0 ≤ x) sh →
  Z.of_nat (length d) = size_of sh → Z.of_nat (length d') = size_of sh →
  (∀ c, in_bounds sh c → element (mkArray int64 sh d) c = element (mkArray int64 sh d') c) →
  d = d'.
Proof.
  intros Hsh Hd Hd' Hel. apply (nth_ext _ _ 0 0); [lia|].
  intros n Hn. specialize (Hel (unravel sh (Z.of_nat n))).
  unfold element in Hel. cbn in Hel.
  rewrite flat_index_unravel in Hel by (done || lia).
  replace (Z.to_nat (0 * size_of sh + Z.of_nat n)) with n in Hel by lia.
  apply Hel. apply unravel_in_bounds; [done|lia].
Qed.

Lemma modified_indices_own_bounds sh c :
  in_bounds sh c → modified_indices sh c = c.
Proof.
  unfold modified_indices. induction 1 as [|i d c sh Hi _ IH]; [done|].
  cbn. rewrite IH. f_equal. destruct (Z.eqb_spec d 1); lia.
Qed.

Lemma stretched_sum_comm a a2 c : stretched_sum a a2 c = stretched_sum a2 a c.
Proof. apply scalar_add_comm. Qed.

(** Any buffer holding the stretched sums is the one [add] fills. *)
Lemma add_run_Ok_data uninit h r1 r2 p q h1 a' b' sh d :
  match_dimensions r1 r2 h = (Ok (p, q), h1) →
  h1 !! p = Some a' → h1 !! q = Some b' → wf a' → wf b' →
  length (shape a') = length (shape b') →
  broadcasted_shape (shape a') (shape b') = Ok sh →
  Z.of_nat (length d) = size_of sh →
  (∀ c, in_bounds sh c → element (mkArray int64 sh d) c = stretched_sum a' b' c) →
  add uninit r1 r2 h = (Ok (length h1), h1 ++ [mkArray int64 sh d]).
Proof.
  intros Hmd Hp Hq Hwa Hwb Hrank Hbs Hd Hel.
  destruct (add_run_Ok uninit h r1 r2 p q h1 a' b' Hmd Hp Hq Hwa Hwb Hrank sh Hbs)
    as (d' & -> & Hd' & Hel').
  do 4 f_equal. apply (data_ext sh); [|done..|].
  - destruct Hwa, Hwb. by eapply broadcasted_shape_nonneg.
  - intros c Hc. by rewrite Hel, Hel'.
Qed.

(** ** More on the shape broadcaster *)

Lemma dims_match_refl dim : dims_match dim dim.
Proof. by left. Qed.

Lemma broadcast_dim_diag dim : broadcast_dim dim dim = dim.
Proof. unfold broadcast_dim. by rewrite Z.eqb_refl. Qed.

Lemma zip_with_broadcast_dim_diag sh : zip_with broadcast_dim sh sh = sh.
Proof.
  induction sh as [|d sh IH]; [done|]. cbn. by rewrite IH, broadcast_dim_diag.
Qed.

Lemma broadcasted_shape_diag sh : broadcasted_shape sh sh = Ok sh.
Proof.
  apply broadcasted_shape_Ok; [done|]. split.
  - apply Forall2_same_length_lookup_2; [done|].
    intros i x y Hx Hy. assert (x = y) as -> by congruence. apply dims_match_refl.
  - by rewrite zip_with_broadcast_dim_diag.
Qed.

Lemma broadcasted_shape_ones_l n sh :
  length sh = n → broadcasted_shape (replicate n 1) sh = Ok sh.
Proof.
  intros <-. apply broadcasted_shape_Ok; [by rewrite length_replicate|].
  induction sh as [|d sh [IH1 IH2]]; [by split|]. cbn. split.
  - constructor; [|done]. unfold dims_match. lia.
  - rewrite <-IH2. f_equal. unfold broadcast_dim.
    destruct (Z.eqb_spec 1 d), (Z.eqb_spec d 1); cbn; lia.
Qed.

Lemma broadcasted_shape_ones_r n sh :
  length sh = n → broadcasted_shape sh (replicate n 1) = Ok sh.
Proof.
  intros <-. apply broadcasted_shape_Ok; [by rewrite length_replicate|].
  induction sh as [|d sh [IH1 IH2]]; [by split|]. cbn. split.
  - constructor; [|done]. unfold dims_match. lia.
  - rewrite <-IH2. f_equal. unfold broadcast_dim.
    destruct (d =? 1); done.
Qed.

Lemma zip_app_longer_l {A B} (l pre : list A) (k : list B) :
  length l = length k → zip (l ++ pre) k = zip l k.
Proof.
  intros Hlen. rewrite zip_with_app_l, take_ge, drop_ge by lia.
  by rewrite zip_with_nil_r, (right_id_L [] (++)).
Qed.

Lemma zip_app_longer_r {A B} (l : list A) (k pre : list B) :
  length l = length k → zip l (k ++ pre) = zip l k.
Proof.
  intros Hlen. rewrite zip_with_app_r, take_ge, drop_ge by lia.
  apply (right_id_L [] (++)).
Qed.

(** Leading axes that have no partner are dropped by the [zip]: only the
    exception still shows them. *)
Lemma broadcasted_shape_prefix_l pre sh sh2 :
  length sh = length sh2 →
  broadcasted_shape (pre ++ sh) sh2
  = match broadcasted_shape sh sh2 with
    | Ok out => Ok out
    | Raise _ => Raise (ValueError (pre ++ sh) sh2)
    end.
Proof.
  intros Hlen. unfold broadcasted_shape.
  rewrite reverse_app, zip_app_longer_l by by rewrite !length_reverse.
  rewrite !broadcasted_shape_loop_spec. by destruct (forallb _ _).
Qed.

Lemma broadcasted_shape_prefix_r pre sh sh2 :
  length sh = length sh2 →
  broadcasted_shape sh (pre ++ sh2)
  = match broadcasted_shape sh sh2 with
    | Ok out => Ok out
    | Raise _ => Raise (ValueError sh (pre ++ sh2))
    end.
Proof.
  intros Hlen. unfold broadcasted_shape.
  rewrite reverse_app, zip_app_longer_r by by rewrite !length_reverse.
  rewrite !broadcasted_shape_loop_spec. by destruct (forallb _ _).
Qed.

Lemma dims_match_assoc x y z :
  dims_match x y ∧ dims_match (broadcast_dim x y) z
  ↔ dims_match y z ∧ dims_match x (broadcast_dim y z).
Proof.
  unfold dims_match, broadcast_dim.
  destruct (Z.eqb_spec x y), (Z.eqb_spec y 1), (Z.eqb_spec y z),
    (Z.eqb_spec z 1); cbn; lia.
Qed.

Lemma broadcast_dim_assoc x y z :
  dims_match x y → dims_match y z →
  broadcast_dim (broadcast_dim x y) z = broadcast_dim x (broadcast_dim y z).
Proof.
  unfold dims_match, broadcast_dim. intros Hxy Hyz.
  destruct (Z.eqb_spec x y), (Z.eqb_spec y 1), (Z.eqb_spec y z),
    (Z.eqb_spec z 1); cbn;
    repeat (match goal with |- context [Z.eqb ?u ?v] =>
              destruct (Z.eqb_spec u v) end; cbn); lia.
Qed.

Lemma Forall2_dims_match_assoc s1 : ∀ s2 s3,
  length s1 = length s2 → length s2 = length s3 →
  (Forall2 dims_match s1 s2 ∧ Forall2 dims_match (zip_with broadcast_dim s1 s2) s3
   ↔ Forall2 dims_match s2 s3 ∧ Forall2 dims_match s1 (zip_with broadcast_dim s2 s3))
  ∧ (Forall2 dims_match s1 s2 → Forall2 dims_match s2 s3 →
     zip_with broadcast_dim (zip_with broadcast_dim s1 s2) s3
     = zip_with broadcast_dim s1 (zip_with broadcast_dim s2 s3)).
Proof.
  induction s1 as [|x s1 IH]; intros [|y s2] [|z s3] H12 H23; try discriminate.
  - split; [|done]. split; intros _; split; constructor.
  - injection H12 as H12. injection H23 as H23.
    destruct (IH s2 s3 H12 H23) as [IHm IHz]. cbn. split.
    + rewrite !Forall2_cons. pose proof (dims_match_assoc x y z). tauto.
    + intros [Hxy Hm12]%Forall2_cons [Hyz Hm23]%Forall2_cons.
      by rewrite IHz, broadcast_dim_assoc.
Qed.

Lemma dims_match_absorb x y :
  dims_match x y →
  dims_match (broadcast_dim x y) x ∧ dims_match (broadcast_dim x y) y
  ∧ broadcast_dim (broadcast_dim x y) x = broadcast_dim x y
  ∧ broadcast_dim (broadcast_dim x y) y = broadcast_dim x y.
Proof.
  unfold dims_match, broadcast_dim. intros Hxy.
  destruct (Z.eqb_spec x y), (Z.eqb_spec y 1); cbn;
    repeat (match goal with |- context [Z.eqb ?u ?v] =>
              destruct (Z.eqb_spec u v) end; cbn); lia.
Qed.

(** ** Properties of [broadcasted_shape] *)

(** X1.  Broadcasting a shape with itself gives the shape back, whatever
    its axes are (0 and negative sizes included). *)
Theorem broadcasted_shape_idempotent (sh : Shape) :
  broadcasted_shape sh sh = Ok sh.
Proof.
  rewrite broadcasted_shape_spec by done.
  assert (forallb dims_matchb (zip sh sh) = true) as ->.
  { induction sh as [|d sh IH]; [done|]. cbn. rewrite IH.
    unfold dims_matchb. cbn. by rewrite Z.eqb_refl. }
  by rewrite zip_with_broadcast_dim_diag.
Qed.

(** X2.  A shape of the same rank made of 1s only is neutral on either
    side: the result is the other shape. *)
Theorem broadcasted_shape_ones_neutral (sh : Shape) :
  broadcasted_shape sh (replicate (length sh) 1) = Ok sh
  ∧ broadcasted_shape (replicate (length sh) 1) sh = Ok sh.
Proof.
  split; [by apply broadcasted_shape_ones_r|by apply broadcasted_shape_ones_l].
Qed.

(** X3.  Called on shapes of different ranks, [broadcasted_shape] does
    not raise for the rank difference: the leading axes of the longer
    shape are ignored, and the result (of the rank of the shorter shape)
    is the one for the trailing axes alone.  It raises exactly when the
    trailing axes do not match. *)
Theorem broadcasted_shape_ignores_leading_axes (pre sh sh2 : Shape) :
  length sh = length sh2 →
  (∀ out, broadcasted_shape (pre ++ sh) sh2 = Ok out
          ↔ broadcasted_shape sh sh2 = Ok out)
  ∧ (∀ out, broadcasted_shape sh (pre ++ sh2) = Ok out
            ↔ broadcasted_shape sh sh2 = Ok out)
  ∧ (∀ out, broadcasted_shape (pre ++ sh) sh2 = Ok out → length out = length sh2)
  ∧ ((∃ e, broadcasted_shape (pre ++ sh) sh2 = Raise e)
     ↔ ∃ e, broadcasted_shape sh sh2 = Raise e)
  ∧ ((∃ e, broadcasted_shape sh (pre ++ sh2) = Raise e)
     ↔ ∃ e, broadcasted_shape sh sh2 = Raise e).
Proof.
  intros Hlen.
  rewrite broadcasted_shape_prefix_l, broadcasted_shape_prefix_r by done.
  destruct (broadcasted_shape sh sh2) as [out0|e0] eqn:Hbs.
  - split_and!; [done..| |done|done].
    intros out [= <-]. apply broadcasted_shape_Ok in Hbs as [_ ->]; [|done].
    rewrite length_zip_with. lia.
  - split_and!; [by split..|done| |]; split; intros _; by eexists.
Qed.

Lemma broadcasted_shape_ignores_leading_axes_witness :
  (∀ out, broadcasted_shape ([7; 2] ++ [3]) [3] = Ok out
          ↔ broadcasted_shape [3] [3] = Ok out)
  ∧ (∀ out, broadcasted_shape [3] ([7; 2] ++ [3]) = Ok out
            ↔ broadcasted_shape [3] [3] = Ok out)
  ∧ (∀ out, broadcasted_shape ([7; 2] ++ [3]) [3] = Ok out → length out = length [3])
  ∧ ((∃ e, broadcasted_shape ([7; 2] ++ [3]) [3] = Raise e)
     ↔ ∃ e, broadcasted_shape [3] [3] = Raise e)
  ∧ ((∃ e, broadcasted_shape [3] ([7; 2] ++ [3]) = Raise e)
     ↔ ∃ e, broadcasted_shape [3] [3] = Raise e).
Proof.
  apply (broadcasted_shape_ignores_leading_axes [7; 2] [3] [3]). reflexivity.
Defined.

(** X4.  On three shapes of one rank, broadcasting is associative: the
    two groupings return the same shape or both fail. *)
Theorem broadcasted_shape_assoc (s1 s2 s3 : Shape) :
  length s1 = length s2 → length s2 = length s3 →
  ∀ out,
    (∃ s12, broadcasted_shape s1 s2 = Ok s12 ∧ broadcasted_shape s12 s3 = Ok out)
    ↔ (∃ s23, broadcasted_shape s2 s3 = Ok s23 ∧ broadcasted_shape s1 s23 = Ok out).
Proof.
  intros H12 H23 out.
  destruct (Forall2_dims_match_assoc s1 s2 s3 H12 H23) as [Hm Hz].
  split.
  - intros (s12 & Hb12 & Hb). apply broadcasted_shape_Ok in Hb12 as [Hm12 ->]; [|done].
    apply broadcasted_shape_Ok in Hb as [Hm3 ->];
      [|rewrite length_zip_with; lia].
    destruct (proj1 Hm (conj Hm12 Hm3)) as [Hm23 Hm1].
    exists (zip_with broadcast_dim s2 s3). split.
    + by apply broadcasted_shape_Ok.
    + apply broadcasted_shape_Ok; [rewrite length_zip_with; lia|].
      split; [done|]. by apply Hz.
  - intros (s23 & Hb23 & Hb). apply broadcasted_shape_Ok in Hb23 as [Hm23 ->]; [|done].
    apply broadcasted_shape_Ok in Hb as [Hm1 ->];
      [|rewrite length_zip_with; lia].
    destruct (proj2 Hm (conj Hm23 Hm1)) as [Hm12 Hm3].
    exists (zip_with broadcast_dim s1 s2). split.
    + by apply broadcasted_shape_Ok.
    + apply broadcasted_shape_Ok; [rewrite length_zip_with; lia|].
      split; [done|]. symmetry. by apply Hz.
Qed.

Lemma broadcasted_shape_assoc_witness :
  (∃ s12, broadcasted_shape [5; 1] [1; 6] = Ok s12
          ∧ broadcasted_shape s12 [1; 6] = Ok [5; 6])
  ↔ (∃ s23, broadcasted_shape [1; 6] [1; 6] = Ok s23
            ∧ broadcasted_shape [5; 1] s23 = Ok [5; 6]).
Proof.
  apply (broadcasted_shape_assoc [5; 1] [1; 6] [1; 6]); reflexivity.
Defined.

(** X5.  When two shapes of one rank broadcast, the result has that
    rank, every axis of either operand is the output axis or 1, and the
    result absorbs both operands: broadcasting it with either of them
    again returns it unchanged. *)
Theorem broadcasted_shape_absorbs_operands (sh sh2 out : Shape) :
  length sh = length sh2 →
  broadcasted_shape sh sh2 = Ok out →
  length out = length sh
  ∧ Forall2 stretches_to sh out ∧ Forall2 stretches_to sh2 out
  ∧ broadcasted_shape out sh = Ok out
  ∧ broadcasted_shape out sh2 = Ok out.
Proof.
  intros Hlen Hbs.
  pose proof (broadcasted_shape_stretches sh sh2 out Hlen Hbs) as [Hs Hs2].
  apply broadcasted_shape_Ok in Hbs as [Hm ->]; [|done].
  assert (length (zip_with broadcast_dim sh sh2) = length sh) as Hl
    by (rewrite length_zip_with; lia).
  split_and!; [done..| |].
  - apply broadcasted_shape_Ok; [done|]. clear Hlen Hs Hs2 Hl.
    induction Hm as [|x y sh sh2 Hxy _ [IH1 IH2]]; [by split|].
    destruct (dims_match_absorb x y Hxy) as (? & ? & ? & ?).
    cbn. split; [by constructor|]. by f_equal.
  - apply broadcasted_shape_Ok; [lia|]. clear Hlen Hs Hs2 Hl.
    induction Hm as [|x y sh sh2 Hxy _ [IH1 IH2]]; [by split|].
    destruct (dims_match_absorb x y Hxy) as (? & ? & ? & ?).
    cbn. split; [by constructor|]. by f_equal.
Qed.

Lemma broadcasted_shape_absorbs_operands_witness :
  length [5; 6] = length [5; 1]
  ∧ Forall2 stretches_to [5; 1] [5; 6] ∧ Forall2 stretches_to [1; 6] [5; 6]
  ∧ broadcasted_shape [5; 6] [5; 1] = Ok [5; 6]
  ∧ broadcasted_shape [5; 6] [1; 6] = Ok [5; 6].
Proof.
  apply (broadcasted_shape_absorbs_operands [5; 1] [1; 6] [5; 6]); reflexivity.
Defined.

(** ** Properties of [minmax] *)

(** X6.  [minmax] returns an item of smallest key first and one of
    largest key second.  With different keys these are the two
    arguments; with equal keys both components are the first argument,
    and the second argument is not returned at all. *)
Theorem minmax_orders_by_key {A : Type} (arg arg2 : A) (key : A → Z) :
  key (minmax arg arg2 key).1 = Z.min (key arg) (key arg2)
  ∧ key (minmax arg arg2 key).2 = Z.max (key arg) (key arg2)
  ∧ (key arg < key arg2 → minmax arg arg2 key = (arg, arg2))
  ∧ (key arg2 < key arg → minmax arg arg2 key = (arg2, arg))
  ∧ (key arg = key arg2 → minmax arg arg2 key = (arg, arg)).
Proof.
  unfold minmax. cbn.
  destruct (Z.ltb_spec (key arg2) (key arg)), (Z.ltb_spec (key arg) (key arg2));
    split_and!; intros; (reflexivity || lia).
Qed.

(** ** Properties of [get_item] *)

Lemma modified_indices_app_extra sh c extra :
  (length sh ≤ length c)%nat →
  modified_indices sh (c ++ extra) = modified_indices sh c.
Proof.
  intros Hlen. unfold modified_indices. f_equal. revert c Hlen.
  induction sh as [|d sh IH]; intros [|i c] Hlen; cbn in *; try done; [lia|].
  f_equal. apply IH. lia.
Qed.

Lemma locate_too_many sh c extra pos :
  in_bounds sh c → extra ≠ [] → locate sh (c ++ extra) pos = Raise IndexError.
Proof.
  intros Hc Hextra. revert pos.
  induction Hc as [|i d c sh Hi _ IH]; intros pos.
  - destruct extra; done.
  - cbn. destruct (Z.leb_spec (- d) i), (Z.ltb_spec i d); try lia. cbn. apply IH.
Qed.

Lemma modified_indices_eq sh : ∀ c c',
  length c = length c' →
  (∀ i d, sh !! i = Some d → d ≠ 1 → c !! i = c' !! i) →
  modified_indices sh c = modified_indices sh c'.
Proof.
  unfold modified_indices.
  induction sh as [|d sh IH]; intros [|x c] [|x' c'] Hlen Hagree; try done.
  cbn. f_equal.
  - destruct (Z.eqb_spec d 1) as [|Hd]; [done|].
    specialize (Hagree 0%nat d eq_refl Hd). by injection Hagree.
  - apply IH; [by injection Hlen|]. intros i d' Hi Hd'. by apply (Hagree (S i) d').
Qed.

Lemma modified_indices_lookup sh : ∀ c i d x,
  sh !! i = Some d → c !! i = Some x → d ≠ 1 →
  modified_indices sh c !! i = Some x.
Proof.
  unfold modified_indices.
  induction sh as [|d0 sh IH]; intros [|x0 c] [|i] d x Hd Hx Hne; try done; cbn in *.
  - simplify_eq. destruct (Z.eqb_spec d 1); done.
  - by eapply IH.
Qed.

Lemma locate_invalid i : ∀ sh idx pos d x,
  sh !! i = Some d → idx !! i = Some x → ¬ valid_index d x →
  locate sh idx pos = Raise IndexError.
Proof.
  unfold valid_index.
  induction i as [|i IH]; intros [|d0 sh] [|x0 idx] pos d x Hd Hx Hbad; try done;
    cbn in *.
  - simplify_eq. destruct (Z.leb_spec (- d) x), (Z.ltb_spec x d); try lia; done.
  - destruct ((- d0 <=? x0) && (x0 <? d0)); [|done]. by eapply IH.
Qed.

Lemma locate_negative i : ∀ sh idx pos d x,
  sh !! i = Some d → idx !! i = Some x → - d ≤ x < 0 →
  locate sh (<[i := x + d]> idx) pos = locate sh idx pos.
Proof.
  induction i as [|i IH]; intros [|d0 sh] [|x0 idx] pos d x Hd Hx Hneg; try done;
    cbn in *.
  - simplify_eq.
    destruct (Z.leb_spec (- d) (x + d)), (Z.ltb_spec (x + d) d),
      (Z.leb_spec (- d) x), (Z.ltb_spec x d); try lia. cbn.
    destruct (Z.ltb_spec (x + d) 0), (Z.ltb_spec x 0); try lia. done.
  - destruct ((- d0 <=? x0) && (x0 <? d0)); [|done]. by eapply IH.
Qed.

Lemma modified_indices_insert sh : ∀ c i d x,
  sh !! i = Some d → d ≠ 1 →
  modified_indices sh (<[i := x]> c) = <[i := x]> (modified_indices sh c).
Proof.
  unfold modified_indices.
  induction sh as [|d0 sh IH]; intros [|x0 c] [|i] d x Hd Hne; try done; cbn in *.
  - simplify_eq. destruct (Z.eqb_spec d 1); done.
  - f_equal. by eapply IH.
Qed.

(** X7.  [get_item] looks at no more indices than the array has axes:
    indices beyond the rank are dropped by the [zip], where indexing the
    array itself with them raises [IndexError]. *)
Theorem get_item_ignores_extra_indices a c extra :
  in_bounds (shape a) c → extra ≠ [] →
  get_item a (c ++ extra) = get_item a c
  ∧ get_item a (c ++ extra) = Ok (Scalar (element a c))
  ∧ getitem a (c ++ extra) = Raise IndexError.
Proof.
  intros Hc Hextra.
  assert (get_item a (c ++ extra) = get_item a c) as Heq.
  { unfold get_item. rewrite modified_indices_app_extra; [done|].
    apply in_bounds_length in Hc. lia. }
  split_and!; [done| |].
  - rewrite Heq. unfold get_item.
    rewrite modified_indices_own_bounds by done. by apply getitem_in_bounds.
  - unfold getitem. by rewrite locate_too_many.
Qed.

Lemma get_item_ignores_extra_indices_witness :
  get_item a23 ([1; 2] ++ [99]) = get_item a23 [1; 2]
  ∧ get_item a23 ([1; 2] ++ [99]) = Ok (Scalar (element a23 [1; 2]))
  ∧ getitem a23 ([1; 2] ++ [99]) = Raise IndexError.
Proof.
  apply (get_item_ignores_extra_indices a23 [1; 2] [99]).
  - repeat constructor; lia.
  - discriminate.
Defined.

(** X8.  The result of [get_item] does not depend on the indices given
    for axes of size 1: two index tuples of one length that agree on all
    other axes give the same result, so on an axis of size 1 any index,
    however large, is accepted. *)
Theorem get_item_stretch_invariant a c c' :
  length c = length c' →
  (∀ i d, shape a !! i = Some d → d ≠ 1 → c !! i = c' !! i) →
  get_item a c = get_item a c'.
Proof.
  intros Hlen Hagree. unfold get_item. f_equal. by apply modified_indices_eq.
Qed.

Lemma get_item_stretch_invariant_witness :
  get_item b13 [1000; 2] = get_item b13 [0; 2].
Proof.
  apply (get_item_stretch_invariant b13 [1000; 2] [0; 2]); [reflexivity|].
  intros [|[|i]] d Hd Hne; cbn in Hd; simplify_eq; done.
Defined.

(** X9.  On an axis whose size is not 1, [get_item] raises [IndexError]
    for an index outside [-d, d). *)
Theorem get_item_index_error a c i d x :
  shape a !! i = Some d → c !! i = Some x → d ≠ 1 → ¬ valid_index d x →
  get_item a c = Raise IndexError.
Proof.
  intros Hd Hx Hne Hbad. unfold get_item, getitem.
  erewrite locate_invalid; [done|exact Hd| |exact Hbad].
  by eapply modified_indices_lookup.
Qed.

Lemma get_item_index_error_witness : get_item a23 [1; 3] = Raise IndexError.
Proof.
  apply (get_item_index_error a23 [1; 3] 1%nat 3 3); try reflexivity.
  - discriminate.
  - unfold valid_index. lia.
Defined.

(** X10.  On an axis of size [d] other than 1, [get_item] takes a
    negative index [x] with [-d <= x] as counting from the end: it gives
    what the index [x + d] gives. *)
Theorem get_item_negative_index a c i d x :
  shape a !! i = Some d → c !! i = Some x → d ≠ 1 → - d ≤ x < 0 →
  get_item a c = get_item a (<[i := x + d]> c).
Proof.
  intros Hd Hx Hne Hneg. unfold get_item, getitem.
  erewrite modified_indices_insert by done.
  erewrite locate_negative; [done|exact Hd| |exact Hneg].
  by eapply modified_indices_lookup.
Qed.

Lemma get_item_negative_index_witness :
  get_item a23 [-1; 1] = get_item a23 (<[0%nat := -1 + 2]> [-1; 1])
  ∧ get_item a23 [-1; 1] = Ok (Scalar 5).
Proof.
  split; [|reflexivity].
  apply (get_item_negative_index a23 [-1; 1] 0%nat 2 (-1)); try reflexivity.
  - discriminate.
  - lia.
Defined.

(** X11.  With an empty index tuple [get_item] returns the array as a
    whole when it has at least one axis, and the single element of an
    array without axes. *)
Theorem get_item_empty_index a :
  wf a →
  get_item a []
  = Ok (if decide (shape a = []) then Scalar (nth 0 (data a) 0) else View a).
Proof.
  intros [_ Hlen]. destruct a as [t sh d]. unfold get_item, getitem. cbn in *.
  destruct sh as [|d0 sh]; [done|].
  rewrite decide_False by done.
  change (zip (d0 :: sh) []) with (@nil (Z * Z)).
  cbn [fmap list_fmap locate]. change (Z.to_nat 0) with 0%nat.
  rewrite Nat.mul_0_l, drop_0, take_ge; [done|].
  change (foldr Z.mul 1 (d0 :: sh)) with (size_of (d0 :: sh)) in Hlen. lia.
Qed.

Lemma get_item_empty_index_witness :
  get_item a23 [] = Ok (View a23)
  ∧ get_item (mkArray int64 [] [7]) [] = Ok (Scalar 7).
Proof.
  split.
  - apply (get_item_empty_index a23). apply wfb_wf. reflexivity.
  - reflexivity.
Defined.

(** ** Properties of [match_dimensions] *)

Lemma aligned_shapes_length sh sh2 :
  length (aligned_shapes sh sh2).1 = (length sh `max` length sh2)%nat
  ∧ length (aligned_shapes sh sh2).2 = (length sh `max` length sh2)%nat.
Proof.
  unfold aligned_shapes.
  destruct (Nat.eqb_spec (length sh) (length sh2));
    [|destruct (Nat.ltb_spec (length sh) (length sh2))]; cbn;
    rewrite ?length_app, ?length_replicate; lia.
Qed.

(** The aligner orders its results by rank, so with differing ranks the
    order of its arguments makes no difference. *)
Lemma match_dimensions_swap h r1 r2 a b :
  h !! r1 = Some a → h !! r2 = Some b → wf a → wf b →
  length (shape a) ≠ length (shape b) →
  match_dimensions r1 r2 h = match_dimensions r2 r1 h.
Proof.
  intros Hr1 Hr2 Hwa Hwb Hne.
  destruct (Nat.lt_ge_cases (length (shape a)) (length (shape b))) as [Hlt|Hge].
  - rewrite (match_dimensions_lower_first h r1 r2 a b) by done.
    by rewrite (match_dimensions_lower_second h r2 r1 b a).
  - rewrite (match_dimensions_lower_second h r1 r2 a b) by (done || lia).
    rewrite (match_dimensions_lower_first h r2 r1 b a) by (done || lia). done.
Qed.

(** X12.  For well-formed arrays the aligner returns two well-formed
    arrays of one rank, the larger of the two ranks it was given. *)
Theorem match_dimensions_equalises_ranks h r1 r2 a b :
  h !! r1 = Some a → h !! r2 = Some b → wf a → wf b →
  ∃ p q h1 a' b',
    match_dimensions r1 r2 h = (Ok (p, q), h1)
    ∧ h1 !! p = Some a' ∧ h1 !! q = Some b'
    ∧ wf a' ∧ wf b'
    ∧ length (shape a') = (length (shape a) `max` length (shape b))%nat
    ∧ length (shape b') = (length (shape a) `max` length (shape b))%nat.
Proof.
  intros Hr1 Hr2 Hwa Hwb.
  destruct (match_dimensions_total h r1 r2 a b Hr1 Hr2 Hwa Hwb)
    as (p & q & h1 & a' & b' & Hmd & Hp & Hq).
  destruct (match_dimensions_inv h r1 r2 a b Hr1 Hr2 Hwa Hwb p q h1 a' b')
    as (Hwa' & Hwb' & _ & Hsh & _); [done..|].
  exists p, q, h1, a', b'. split_and!; [done..| |].
  - replace (shape a') with (aligned_shapes (shape a) (shape b)).1
      by by rewrite <-Hsh.
    apply aligned_shapes_length.
  - replace (shape b') with (aligned_shapes (shape a) (shape b)).2
      by by rewrite <-Hsh.
    apply aligned_shapes_length.
Qed.

Lemma match_dimensions_equalises_ranks_witness :
  ∃ p q h1 a' b',
    match_dimensions 0%nat 1%nat [a23; b3] = (Ok (p, q), h1)
    ∧ h1 !! p = Some a' ∧ h1 !! q = Some b'
    ∧ wf a' ∧ wf b'
    ∧ length (shape a') = (length (shape a23) `max` length (shape b3))%nat
    ∧ length (shape b') = (length (shape a23) `max` length (shape b3))%nat.
Proof.
  apply (match_dimensions_equalises_ranks [a23; b3] 0%nat 1%nat a23 b3);
    try reflexivity; apply wfb_wf; reflexivity.
Defined.

(** X13.  Whatever it is called on, the aligner writes to no array: the
    store it leaves is the one it found, with at most one new array
    appended, and exactly the one it found when it raises. *)
Theorem match_dimensions_allocates_at_most_one (h : heap) (r1 r2 : ref) :
  ((match_dimensions r1 r2 h).2 = h
   ∨ ∃ x, (match_dimensions r1 r2 h).2 = h ++ [x])
  ∧ ∀ e, (match_dimensions r1 r2 h).1 = Raise e → (match_dimensions r1 r2 h).2 = h.
Proof.
  unfold match_dimensions, mbind, py_bind, deref, current_heap, lift, alloc,
    mret, py_ret.
  repeat case_match; simplify_eq; cbn; split; eauto; intros; simplify_eq; done.
Qed.

(** X14.  Aligning what the aligner returned changes nothing: the second
    call returns the same two arrays and leaves the store alone. *)
Theorem match_dimensions_idempotent h r1 r2 a b p q h1 :
  h !! r1 = Some a → h !! r2 = Some b → wf a → wf b →
  match_dimensions r1 r2 h = (Ok (p, q), h1) →
  match_dimensions p q h1 = (Ok (p, q), h1).
Proof.
  intros Hr1 Hr2 Hwa Hwb Hmd.
  destruct (match_dimensions_total h r1 r2 a b Hr1 Hr2 Hwa Hwb)
    as (p' & q' & h1' & a' & b' & Hmd' & Hp & Hq).
  rewrite Hmd in Hmd'. injection Hmd' as <- <- <-.
  destruct (match_dimensions_inv h r1 r2 a b Hr1 Hr2 Hwa Hwb p q h1 a' b')
    as (_ & _ & Hrank & _); [done..|].
  by apply (match_dimensions_equal_rank h1 p q a' b').
Qed.

Lemma match_dimensions_idempotent_witness :
  match_dimensions 2%nat 0%nat [a23; b3; b13] = (Ok (2%nat, 0%nat), [a23; b3; b13]).
Proof.
  apply (match_dimensions_idempotent [a23; b3] 0%nat 1%nat a23 b3);
    try reflexivity; apply wfb_wf; reflexivity.
Defined.

(** X15.  For arrays of differing ranks the aligner does not depend on
    the order of its arguments.  Both orders return the same pair and
    leave the same store: the first component is a new array, appended
    to the store, with the element type and buffer of the lower-rank
    argument and its shape behind (rank difference) axes of size 1; the
    second component is the higher-rank argument itself. *)
Theorem match_dimensions_order_irrelevant h r1 r2 a b :
  h !! r1 = Some a → h !! r2 = Some b → wf a → wf b →
  length (shape a) ≠ length (shape b) →
  match_dimensions r1 r2 h = match_dimensions r2 r1 h
  ∧ match_dimensions r1 r2 h
    = if (length (shape a) <? length (shape b))%nat
      then (Ok (length h, r2),
            h ++ [mkArray (dtype a)
                    (replicate (length (shape b) - length (shape a)) 1 ++ shape a)
                    (data a)])
      else (Ok (length h, r1),
            h ++ [mkArray (dtype b)
                    (replicate (length (shape a) - length (shape b)) 1 ++ shape b)
                    (data b)]).
Proof.
  intros Hr1 Hr2 Hwa Hwb Hne.
  split; [by apply (match_dimensions_swap h r1 r2 a b)|].
  destruct (Nat.ltb_spec (length (shape a)) (length (shape b))) as [Hlt|Hge].
  - by apply (match_dimensions_lower_first h r1 r2 a b).
  - apply (match_dimensions_lower_second h r1 r2 a b); (done || lia).
Qed.

Lemma match_dimensions_order_irrelevant_witness :
  match_dimensions 0%nat 1%nat [a23; b3] = match_dimensions 1%nat 0%nat [a23; b3]
  ∧ match_dimensions 0%nat 1%nat [a23; b3]
    = (Ok (2%nat, 0%nat), [a23; b3] ++ [mkArray int64 [1; 3] [10; 20; 30]]).
Proof.
  apply (match_dimensions_order_irrelevant [a23; b3] 0%nat 1%nat a23 b3);
    try reflexivity; try (apply wfb_wf; reflexivity). discriminate.
Defined.

(** ** Properties of [add] *)

Lemma broadcasted_shape_comm_Ok sh sh2 out :
  length sh = length sh2 →
  broadcasted_shape sh sh2 = Ok out → broadcasted_shape sh2 sh = Ok out.
Proof.
  intros Hlen [Hm ->]%broadcasted_shape_Ok; [|done].
  apply broadcasted_shape_Ok; [done|].
  split; [by apply Forall2_dims_match_sym|].
  by apply zip_with_broadcast_dim_comm.
Qed.

Lemma broadcasted_shape_comm_Raise sh sh2 e :
  length sh = length sh2 →
  broadcasted_shape sh sh2 = Raise e →
  broadcasted_shape sh2 sh = Raise (ValueError sh2 sh).
Proof.
  intros Hlen [Hm _]%broadcasted_shape_Raise; [|done].
  apply broadcasted_shape_Raise; [done|]. split; [|done].
  intros Hm'. by apply Hm, Forall2_dims_match_sym.
Qed.

(** The two argument orders of [add] leave the same store and return the
    same reference; with differing ranks they agree altogether. *)
Lemma add_comm_run uninit h r1 r2 a b :
  h !! r1 = Some a → h !! r2 = Some b → wf a → wf b →
  (add uninit r2 r1 h).2 = (add uninit r1 r2 h).2
  ∧ (∀ out, (add uninit r1 r2 h).1 = Ok out ↔ (add uninit r2 r1 h).1 = Ok out)
  ∧ (length (shape a) ≠ length (shape b) →
     add uninit r2 r1 h = add uninit r1 r2 h).
Proof.
  intros Hr1 Hr2 Hwa Hwb.
  destruct (decide (length (shape a) = length (shape b))) as [Hrank|Hrank].
  - pose proof (match_dimensions_equal_rank h r1 r2 a b Hr1 Hr2 Hrank) as Hmd.
    pose proof (match_dimensions_equal_rank h r2 r1 b a Hr2 Hr1 (eq_sym Hrank)) as Hmd'.
    destruct (broadcasted_shape (shape a) (shape b)) as [sh|e] eqn:Hbs.
    + destruct (add_run_Ok uninit h r1 r2 r1 r2 h a b Hmd Hr1 Hr2 Hwa Hwb Hrank sh Hbs)
        as (d & Hrun & Hd & Hel).
      rewrite Hrun.
      rewrite (add_run_Ok_data uninit h r2 r1 r2 r1 h b a sh d); try done.
      * by apply broadcasted_shape_comm_Ok.
      * intros c Hc. by rewrite Hel, stretched_sum_comm.
    + rewrite (add_run_Raise uninit h r1 r2 r1 r2 h a b Hmd Hr1 Hr2 e Hbs).
      erewrite (add_run_Raise uninit h r2 r1 r2 r1 h b a Hmd' Hr2 Hr1);
        [|by eapply broadcasted_shape_comm_Raise].
      done.
  - assert (add uninit r2 r1 h = add uninit r1 r2 h) as ->; [|done].
    unfold add, mbind, py_bind.
    by rewrite (match_dimensions_swap h r1 r2 a b).
Qed.

Lemma nth_zip_with {A B C} (f : A → B → C) l k i da db dc :
  (i < length l)%nat → (i < length k)%nat →
  nth i (zip_with f l k) dc = f (nth i l da) (nth i k db).
Proof.
  intros Hl Hk. rewrite !nth_lookup, lookup_zip_with.
  destruct (lookup_lt_is_Some_2 l i Hl) as [x ->].
  destruct (lookup_lt_is_Some_2 k i Hk) as [y ->]. done.
Qed.

Lemma nth_fmap {A B} (f : A → B) l i da db :
  (i < length l)%nat → nth i (f <$> l) db = f (nth i l da).
Proof.
  intros Hl. rewrite !nth_lookup, list_lookup_fmap.
  destruct (lookup_lt_is_Some_2 l i Hl) as [x ->]. done.
Qed.

Lemma flat_index_lt sh c :
  in_bounds sh c → (Z.to_nat (flat_index sh c 0) < Z.to_nat (size_of sh))%nat.
Proof. intros Hc. pose proof (flat_index_range sh c 0 Hc). lia. Qed.

(** X16.  What [add] returns and the store it leaves do not depend on
    the contents of the memory [np.empty] hands out: every cell of the
    output is written. *)
Theorem add_independent_of_uninit uninit uninit' h r1 r2 a b :
  h !! r1 = Some a → h !! r2 = Some b → wf a → wf b →
  add uninit r1 r2 h = add uninit' r1 r2 h.
Proof.
  intros Hr1 Hr2 Hwa Hwb.
  destruct (match_dimensions_total h r1 r2 a b Hr1 Hr2 Hwa Hwb)
    as (p & q & h1 & a' & b' & Hmd & Hp & Hq).
  destruct (match_dimensions_inv h r1 r2 a b Hr1 Hr2 Hwa Hwb p q h1 a' b')
    as (Hwa' & Hwb' & Hrank & _); [done..|].
  destruct (broadcasted_shape (shape a') (shape b')) as [sh|e] eqn:Hbs.
  - destruct (add_run_Ok uninit h r1 r2 p q h1 a' b' Hmd Hp Hq Hwa' Hwb' Hrank sh Hbs)
      as (d & -> & Hd & Hel).
    symmetry. by apply (add_run_Ok_data uninit' h r1 r2 p q h1 a' b').
  - rewrite (add_run_Raise uninit h r1 r2 p q h1 a' b' Hmd Hp Hq e Hbs).
    by rewrite (add_run_Raise uninit' h r1 r2 p q h1 a' b' Hmd Hp Hq e Hbs).
Qed.

Lemma add_independent_of_uninit_witness :
  add (λ _, 0) 0%nat 1%nat [a23; b3] = add (λ n, Z.of_nat n + 7) 0%nat 1%nat [a23; b3].
Proof.
  apply (add_independent_of_uninit _ _ [a23; b3] 0%nat 1%nat a23 b3);
    try reflexivity; apply wfb_wf; reflexivity.
Defined.

(** X17.  [add] is commutative: called with its arguments exchanged it
    leaves the same store, the same output array included, and returns
    the same reference when it returns; when it raises, so does the
    exchanged call, and for arrays of differing ranks with the same
    exception. *)
Theorem add_commutative uninit h r1 r2 a b res h' :
  h !! r1 = Some a → h !! r2 = Some b → wf a → wf b →
  add uninit r1 r2 h = (res, h') →
  ∃ res',
    add uninit r2 r1 h = (res', h')
    ∧ match res with
      | Ok out => res' = Ok out
      | Raise e =>
          ∃ e', res' = Raise e'
                ∧ (length (shape a) ≠ length (shape b) → e' = e)
      end.
Proof.
  intros Hr1 Hr2 Hwa Hwb Hadd.
  destruct (add_comm_run uninit h r1 r2 a b Hr1 Hr2 Hwa Hwb) as (Hst & Hok & Hne).
  rewrite Hadd in Hst, Hok, Hne. cbn in Hst, Hok.
  destruct (add uninit r2 r1 h) as [res' h''] eqn:Hadd'. cbn in Hst, Hok. subst h''.
  exists res'. split; [done|]. destruct res as [out|e].
  - by apply Hok.
  - destruct res' as [out'|e'].
    + discriminate (proj2 (Hok out') eq_refl).
    + exists e'. split; [done|]. intros Hrank. apply Hne in Hrank. congruence.
Qed.

Lemma add_commutative_witness :
  ∃ res',
    add (λ _, 0) 1%nat 0%nat [a23; b13]
    = (res', [a23; b13; mkArray int64 [2; 3] [11; 22; 33; 14; 25; 36]])
    ∧ res' = Ok 2%nat.
Proof.
  apply (add_commutative (λ _, 0) [a23; b13] 0%nat 1%nat a23 b13 (Ok 2%nat));
    try reflexivity; apply wfb_wf; reflexivity.
Defined.

(** X18.  On two arrays of the same shape nothing is stretched: [add]
    returns a new int64 array of that shape whose buffer is the
    element-wise numpy sum of the two buffers, that is the integer sums
    wrapped into the type numpy promotes the two element types to; a
    sum that type can represent is stored exactly. *)
Theorem add_equal_shapes uninit h r1 r2 a b :
  h !! r1 = Some a → h !! r2 = Some b → wf a → wf b →
  shape a = shape b →
  add uninit r1 r2 h
  = (Ok (length h),
     h ++ [mkArray int64 (shape a)
             (zip_with (scalar_add (dtype a) (dtype b)) (data a) (data b))])
  ∧ ∀ k x y,
      data a !! k = Some x → data b !! k = Some y →
      representable (promote (dtype a) (dtype b)) (x + y) →
      zip_with (scalar_add (dtype a) (dtype b)) (data a) (data b) !! k
      = Some (x + y).
Proof.
  intros Hr1 Hr2 Hwa Hwb Hsh. split.
  - pose proof Hwa as [Hnn Hla]. pose proof Hwb as [_ Hlb]. rewrite <-Hsh in Hlb.
    apply (add_run_Ok_data uninit h r1 r2 r1 r2 h a b); try done.
    + apply (match_dimensions_equal_rank h r1 r2 a b); [done..|]. by rewrite Hsh.
    + by rewrite Hsh.
    + rewrite <-Hsh. apply broadcasted_shape_diag.
    + rewrite length_zip_with. lia.
    + intros c Hc. unfold stretched_sum. rewrite <-Hsh.
      rewrite modified_indices_own_bounds by done.
      unfold element. cbn. rewrite <-Hsh.
      pose proof (flat_index_lt _ _ Hc).
      apply nth_zip_with; lia.
  - intros k x y Hx Hy Hrep. rewrite lookup_zip_with, Hx, Hy. cbn.
    by rewrite scalar_add_exact.
Qed.

Lemma add_equal_shapes_witness :
  add (λ _, 0) 0%nat 1%nat [mkArray int32 [2] [2147483647; 5]; mkArray int32 [2] [1; 6]]
  = (Ok 2%nat,
     [mkArray int32 [2] [2147483647; 5]; mkArray int32 [2] [1; 6];
      mkArray int64 [2] [-2147483648; 11]]).
Proof.
  apply (add_equal_shapes (λ _, 0)
           [mkArray int32 [2] [2147483647; 5]; mkArray int32 [2] [1; 6]]
           0%nat 1%nat (mkArray int32 [2] [2147483647; 5]) (mkArray int32 [2] [1; 6]));
    try reflexivity; apply wfb_wf; reflexivity.
Defined.

(** X19.  Adding an array without axes (a single element) to an array
    with at least one axis, in either order, returns a new int64 array
    of the shape of the latter, in which every element is the numpy sum
    of the corresponding element and that single element: the integer
    sum wrapped into the promoted element type, exact when that type can
    represent it. *)
Theorem add_scalar_array uninit h r1 r2 a b :
  h !! r1 = Some a → h !! r2 = Some b → wf a → wf b →
  shape b = [] → shape a ≠ [] →
  let v := nth 0 (data b) 0 in
  ∃ out h',
    add uninit r1 r2 h = (Ok out, h')
    ∧ add uninit r2 r1 h = (Ok out, h')
    ∧ h !! out = None
    ∧ h' !! out
      = Some (mkArray int64 (shape a)
                ((λ x, scalar_add (dtype a) (dtype b) x v) <$> data a))
    ∧ ∀ k x,
        data a !! k = Some x →
        representable (promote (dtype a) (dtype b)) (x + v) →
        ((λ x, scalar_add (dtype a) (dtype b) x v) <$> data a) !! k = Some (x + v).
Proof.
  intros Hr1 Hr2 Hwa Hwb Hb Ha v.
  assert (length (shape b) < length (shape a))%nat as Hlt.
  { rewrite Hb. destruct (shape a); [done|cbn; lia]. }
  set (n := (length (shape a) - length (shape b))%nat).
  set (pb := prepend_axes n b).
  pose proof (match_dimensions_lower_second h r1 r2 a b Hr1 Hr2 Hlt Hwb) as Hmd.
  fold n pb in Hmd.
  assert (shape pb = replicate (length (shape a)) 1) as Hpb.
  { unfold pb, prepend_axes, n. cbn. rewrite Hb, (right_id_L [] (++)). cbn.
    by rewrite Nat.sub_0_r. }
  assert (broadcasted_shape (shape pb) (shape a) = Ok (shape a)) as Hbs.
  { rewrite Hpb. by apply broadcasted_shape_ones_l. }
  assert (size_of (shape pb) = 1) as Hsize.
  { unfold pb, prepend_axes. cbn. rewrite size_of_prepend, Hb. done. }
  pose proof Hwa as [Hnn Hla].
  set (d := (λ x, scalar_add (dtype a) (dtype b) x v) <$> data a).
  assert (add uninit r1 r2 h
          = (Ok (length (h ++ [pb])), (h ++ [pb]) ++ [mkArray int64 (shape a) d]))
    as Hadd.
  { apply (add_run_Ok_data uninit h r1 r2 (length h) r1 (h ++ [pb]) pb a); try done.
    - by apply list_lookup_middle.
    - by apply lookup_app_l_Some.
    - by apply wf_prepend_axes.
    - by rewrite Hpb, length_replicate.
    - unfold d. rewrite length_fmap. done.
    - intros c Hc. unfold stretched_sum.
      rewrite (modified_indices_own_bounds (shape a)) by done.
      pose proof (broadcasted_shape_stretches (shape pb) (shape a) (shape a)) as [Hs _];
        [by rewrite Hpb, length_replicate|done|].
      pose proof (modified_indices_in_bounds _ _ _ Hs Hc) as Hc'.
      pose proof (flat_index_lt _ _ Hc') as Hlt'. rewrite Hsize in Hlt'.
      pose proof (flat_index_lt _ _ Hc) as Hlt''.
      unfold element at 2. replace (Z.to_nat _) with 0%nat by lia.
      unfold element, d. cbn. rewrite (nth_fmap _ _ _ 0) by lia.
      apply scalar_add_comm. }
  eexists _, _. split_and!.
  - exact Hadd.
  - rewrite <-Hadd.
    apply (add_comm_run uninit h r1 r2 a b Hr1 Hr2 Hwa Hwb). lia.
  - apply lookup_ge_None. rewrite length_app. lia.
  - by apply list_lookup_middle.
  - intros k x Hx Hrep. unfold d. rewrite list_lookup_fmap, Hx. cbn.
    by rewrite scalar_add_exact.
Qed.

Lemma add_scalar_array_witness :
  ∃ out h',
    add (λ _, 0) 0%nat 1%nat [a23; mkArray int8 [] [100]] = (Ok out, h')
    ∧ add (λ _, 0) 1%nat 0%nat [a23; mkArray int8 [] [100]] = (Ok out, h')
    ∧ [a23; mkArray int8 [] [100]] !! out = None
    ∧ h' !! out
      = Some (mkArray int64 (shape a23)
                ((λ x, scalar_add (dtype a23) int8 x 100) <$> data a23))
    ∧ ∀ k x,
        data a23 !! k = Some x →
        representable (promote (dtype a23) int8) (x + 100) →
        ((λ x, scalar_add (dtype a23) int8 x 100) <$> data a23) !! k = Some (x + 100).
Proof.
  apply (add_scalar_array (λ _, 0) [a23; mkArray int8 [] [100]] 0%nat 1%nat
           a23 (mkArray int8 [] [100]));
    try reflexivity; try (apply wfb_wf; reflexivity). discriminate.
Defined.

(** A column plus a row: the outer sum. *)
Lemma add_column_row_run uninit h r1 r2 a b m n :
  h !! r1 = Some a → h !! r2 = Some b → wf a → wf b →
  shape a = [m; 1] → shape b = [1; n] →
  ∃ d,
    add uninit r1 r2 h = (Ok (length h), h ++ [mkArray int64 [m; n] d])
    ∧ Z.of_nat (length d) = m * n
    ∧ ∀ i j, 0 ≤ i < m → 0 ≤ j < n →
        element (mkArray int64 [m; n] d) [i; j]
        = scalar_add (dtype a) (dtype b)
            (nth (Z.to_nat i) (data a) 0) (nth (Z.to_nat j) (data b) 0).
Proof.
  intros Hr1 Hr2 Hwa Hwb Ha Hb.
  assert (broadcasted_shape (shape a) (shape b) = Ok [m; n]) as Hbs.
  { rewrite Ha, Hb. apply broadcasted_shape_Ok; [done|]. split.
    - repeat constructor; unfold dims_match; lia.
    - cbn. unfold broadcast_dim.
      destruct (Z.eqb_spec m 1), (Z.eqb_spec 1 n), (Z.eqb_spec n 1); cbn;
        repeat f_equal; lia. }
  destruct (add_run_Ok uninit h r1 r2 r1 r2 h a b) with (sh := [m; n])
    as (d & Hrun & Hd & Hel); try done.
  { apply (match_dimensions_equal_rank h r1 r2 a b); [done..|]. by rewrite Ha, Hb. }
  { by rewrite Ha, Hb. }
  exists d. split; [done|]. split; [cbn in Hd; lia|].
  intros i j Hi Hj.
  assert (in_bounds [m; n] [i; j]) as Hc by (repeat constructor; lia).
  rewrite Hel by done.
  unfold stretched_sum, element. rewrite Ha, Hb. unfold modified_indices. cbn.
  destruct (Z.eqb_spec m 1), (Z.eqb_spec n 1); do 2 f_equal; lia.
Qed.

(** X20.  Adding a column of shape (m,1) and a row of shape (1,n) returns
    a new int64 array of shape (m,n) that holds at (i,j) the numpy sum
    of the i-th element of the column and the j-th element of the row:
    their integer sum wrapped into the promoted element type, exact when
    that type can represent it. *)
Theorem add_column_row uninit h r1 r2 a b m n :
  h !! r1 = Some a → h !! r2 = Some b → wf a → wf b →
  shape a = [m; 1] → shape b = [1; n] →
  ∃ d,
    add uninit r1 r2 h = (Ok (length h), h ++ [mkArray int64 [m; n] d])
    ∧ Z.of_nat (length d) = m * n
    ∧ ∀ i j, 0 ≤ i < m → 0 ≤ j < n →
        let x := nth (Z.to_nat i) (data a) 0 in
        let y := nth (Z.to_nat j) (data b) 0 in
        getitem (mkArray int64 [m; n] d) [i; j]
        = Ok (Scalar (scalar_add (dtype a) (dtype b) x y))
        ∧ (representable (promote (dtype a) (dtype b)) (x + y) →
           getitem (mkArray int64 [m; n] d) [i; j] = Ok (Scalar (x + y))).
Proof.
  intros Hr1 Hr2 Hwa Hwb Ha Hb.
  destruct (add_column_row_run uninit h r1 r2 a b m n) as (d & Hrun & Hd & Hel);
    [done..|].
  exists d. split_and!; [done..|]. intros i j Hi Hj x y.
  rewrite getitem_in_bounds by (repeat constructor; cbn; lia).
  rewrite Hel by done. fold x y. split; [done|].
  intros Hrep. by rewrite scalar_add_exact.
Qed.

Lemma add_column_row_witness :
  ∃ d,
    add (λ _, 0) 0%nat 1%nat [mkArray int64 [2; 1] [1; 2]; b13]
    = (Ok (length [mkArray int64 [2; 1] [1; 2]; b13]),
       [mkArray int64 [2; 1] [1; 2]; b13] ++ [mkArray int64 [2; 3] d])
    ∧ Z.of_nat (length d) = 2 * 3
    ∧ ∀ i j, 0 ≤ i < 2 → 0 ≤ j < 3 →
        let x := nth (Z.to_nat i) (data (mkArray int64 [2; 1] [1; 2])) 0 in
        let y := nth (Z.to_nat j) (data b13) 0 in
        getitem (mkArray int64 [2; 3] d) [i; j]
        = Ok (Scalar (scalar_add int64 (dtype b13) x y))
        ∧ (representable (promote int64 (dtype b13)) (x + y) →
           getitem (mkArray int64 [2; 3] d) [i; j] = Ok (Scalar (x + y))).
Proof.
  apply (add_column_row (λ _, 0) [mkArray int64 [2; 1] [1; 2]; b13] 0%nat 1%nat
           (mkArray int64 [2; 1] [1; 2]) b13 2 3);
    try reflexivity; apply wfb_wf; reflexivity.
Defined.

(** A matrix plus a vector: the vector is added to every row. *)
Lemma add_matrix_vector_run uninit h r1 r2 a b m n :
  h !! r1 = Some a → h !! r2 = Some b → wf a → wf b →
  shape a = [m; n] → shape b = [n] →
  ∃ d,
    add uninit r1 r2 h
    = (Ok (S (length h)),
       h ++ [mkArray (dtype b) [1; n] (data b); mkArray int64 [m; n] d])
    ∧ Z.of_nat (length d) = m * n
    ∧ ∀ i j, 0 ≤ i < m → 0 ≤ j < n →
        element (mkArray int64 [m; n] d) [i; j]
        = scalar_add (dtype a) (dtype b)
            (nth (Z.to_nat (i * n + j)) (data a) 0)
            (nth (Z.to_nat j) (data b) 0).
Proof.
  intros Hr1 Hr2 Hwa Hwb Ha Hb.
  set (pb := mkArray (dtype b) [1; n] (data b)).
  assert (match_dimensions r1 r2 h = (Ok (length h, r1), h ++ [pb])) as Hmd.
  { rewrite (match_dimensions_lower_second h r1 r2 a b); try done.
    - unfold prepend_axes, pb. by rewrite Ha, Hb.
    - rewrite Ha, Hb. cbn. lia. }
  assert (wf pb) as Hwpb.
  { replace pb with (prepend_axes 1 b); [by apply wf_prepend_axes|].
    unfold prepend_axes, pb. by rewrite Hb. }
  assert (broadcasted_shape (shape pb) (shape a) = Ok [m; n]) as Hbs.
  { rewrite Ha. apply broadcasted_shape_Ok; [done|]. split.
    - repeat constructor; unfold dims_match; lia.
    - cbn. unfold broadcast_dim. rewrite Z.eqb_refl.
      destruct (Z.eqb_spec 1 m), (Z.eqb_spec m 1); cbn; repeat f_equal; lia. }
  destruct (add_run_Ok uninit h r1 r2 (length h) r1 (h ++ [pb]) pb a) with (sh := [m; n])
    as (d & Hrun & Hd & Hel); try done.
  { by apply list_lookup_middle. }
  { by apply lookup_app_l_Some. }
  { by rewrite Ha. }
  exists d. split; [|split; [cbn in Hd; lia|]].
  - rewrite Hrun, length_app, <-(assoc_L (++)). cbn. do 2 f_equal. lia.
  - intros i j Hi Hj.
    assert (in_bounds [m; n] [i; j]) as Hc by (repeat constructor; lia).
    rewrite Hel by done.
    unfold stretched_sum, element. rewrite Ha. unfold modified_indices. cbn.
    rewrite scalar_add_comm.
    destruct (Z.eqb_spec m 1), (Z.eqb_spec n 1); do 2 f_equal; lia.
Qed.

(** X21.  Adding a matrix of shape (m,n) and a vector of shape (n,), in
    this order, pads the vector to (1,n) in a new array (same element
    type, same buffer) and returns a new int64 array of shape (m,n) that
    holds at (i,j) the numpy sum of the matrix element at (i,j) and the
    j-th element of the vector: their integer sum wrapped into the
    promoted element type, exact when that type can represent it. *)
Theorem add_matrix_vector uninit h r1 r2 a b m n :
  h !! r1 = Some a → h !! r2 = Some b → wf a → wf b →
  shape a = [m; n] → shape b = [n] →
  ∃ d,
    add uninit r1 r2 h
    = (Ok (S (length h)),
       h ++ [mkArray (dtype b) [1; n] (data b); mkArray int64 [m; n] d])
    ∧ Z.of_nat (length d) = m * n
    ∧ ∀ i j, 0 ≤ i < m → 0 ≤ j < n →
        let x := nth (Z.to_nat (i * n + j)) (data a) 0 in
        let y := nth (Z.to_nat j) (data b) 0 in
        getitem (mkArray int64 [m; n] d) [i; j]
        = Ok (Scalar (scalar_add (dtype a) (dtype b) x y))
        ∧ (representable (promote (dtype a) (dtype b)) (x + y) →
           getitem (mkArray int64 [m; n] d) [i; j] = Ok (Scalar (x + y))).
Proof.
  intros Hr1 Hr2 Hwa Hwb Ha Hb.
  destruct (add_matrix_vector_run uninit h r1 r2 a b m n) as (d & Hrun & Hd & Hel);
    [done..|].
  exists d. split_and!; [done..|]. intros i j Hi Hj x y.
  rewrite getitem_in_bounds by (repeat constructor; cbn; lia).
  rewrite Hel by done. fold x y. split; [done|].
  intros Hrep. by rewrite scalar_add_exact.
Qed.

Lemma add_matrix_vector_witness :
  ∃ d,
    add (λ _, 0) 0%nat 1%nat [a23; b3]
    = (Ok (S (length [a23; b3])),
       [a23; b3] ++ [mkArray (dtype b3) [1; 3] (data b3); mkArray int64 [2; 3] d])
    ∧ Z.of_nat (length d) = 2 * 3
    ∧ ∀ i j, 0 ≤ i < 2 → 0 ≤ j < 3 →
        let x := nth (Z.to_nat (i * 3 + j)) (data a23) 0 in
        let y := nth (Z.to_nat j) (data b3) 0 in
        getitem (mkArray int64 [2; 3] d) [i; j]
        = Ok (Scalar (scalar_add (dtype a23) (dtype b3) x y))
        ∧ (representable (promote (dtype a23) (dtype b3)) (x + y) →
           getitem (mkArray int64 [2; 3] d) [i; j] = Ok (Scalar (x + y))).
Proof.
  apply (add_matrix_vector (λ _, 0) [a23; b3] 0%nat 1%nat a23 b3 2 3);
    try reflexivity; apply wfb_wf; reflexivity.
Defined.

(** Broadcasting a shape padded with leading 1s against a shape of the
    same rank: the leading axes of the latter are kept and the trailing
    axes are broadcast. *)
Lemma broadcasted_shape_padded k pre sl sh' :
  length pre = k → length sl = length sh' →
  broadcasted_shape (replicate k 1 ++ sl) (pre ++ sh')
  = match broadcasted_shape sl sh' with
    | Ok z => Ok (pre ++ z)
    | Raise _ => Raise (ValueError (replicate k 1 ++ sl) (pre ++ sh'))
    end.
Proof.
  intros Hk Hlen.
  pose proof (broadcasted_shape_ones_l k pre Hk) as Hones.
  apply broadcasted_shape_Ok in Hones as [Hm Hz];
    [|by rewrite length_replicate].
  apply forallb_dims_match in Hm; [|by rewrite length_replicate].
  rewrite !broadcasted_shape_spec
    by (rewrite ?length_app, ?length_replicate; lia).
  rewrite !zip_with_app by (rewrite ?length_replicate; lia).
  rewrite forallb_app, Hm, <-Hz. cbn.
  by destruct (forallb dims_matchb (zip sl sh')).
Qed.

(** X22.  The numpy broadcasting rule, on the shapes as given: [add]
    returns exactly when the axes of the lower-rank operand match the
    trailing axes of the other one, pair by pair; the leading axes of the
    higher-rank operand have no partner and are taken over as they are.
    The output has the rank of the higher-rank operand.  Otherwise [add]
    raises.  This holds for both orders of the arguments. *)
Theorem add_result_shape uninit h r1 r2 a b :
  h !! r1 = Some a → h !! r2 = Some b → wf a → wf b →
  (length (shape a) ≤ length (shape b))%nat →
  let k := (length (shape b) - length (shape a))%nat in
  match broadcasted_shape (shape a) (drop k (shape b)) with
  | Ok z =>
      ∃ out h' d,
        add uninit r1 r2 h = (Ok out, h')
        ∧ add uninit r2 r1 h = (Ok out, h')
        ∧ h' !! out = Some (mkArray int64 (take k (shape b) ++ z) d)
  | Raise _ =>
      ∃ e e' h',
        add uninit r1 r2 h = (Raise e, h')
        ∧ add uninit r2 r1 h = (Raise e', h')
  end.
Proof.
  intros Hr1 Hr2 Hwa Hwb Hle k.
  destruct (add_comm_run uninit h r1 r2 a b Hr1 Hr2 Hwa Hwb) as (Hst & Hok & _).
  assert (∃ p q h1 a' b',
            match_dimensions r1 r2 h = (Ok (p, q), h1)
            ∧ h1 !! p = Some a' ∧ h1 !! q = Some b' ∧ wf a' ∧ wf b'
            ∧ length (shape a') = length (shape b')
            ∧ broadcasted_shape (shape a') (shape b')
              = match broadcasted_shape (shape a) (drop k (shape b)) with
                | Ok z => Ok (take k (shape b) ++ z)
                | Raise _ => Raise (ValueError (shape a') (shape b'))
                end)
    as (p & q & h1 & a' & b' & Hmd & Hp & Hq & Hwa' & Hwb' & Hrank & Hbs).
  { destruct (decide (length (shape a) = length (shape b))) as [Heq|Hne].
    - exists r1, r2, h, a, b.
      split_and!; [by apply (match_dimensions_equal_rank h r1 r2 a b)|done..|].
      unfold k. rewrite Heq, Nat.sub_diag, drop_0, take_0. cbn.
      destruct (broadcasted_shape (shape a) (shape b)) as [z|e] eqn:E; [done|].
      by apply broadcasted_shape_Raise in E as [_ ->].
    - assert (length (shape a) < length (shape b))%nat as Hlt by lia.
      eexists (length h), r2, _, (prepend_axes k a), b.
      split_and!;
        [by apply (match_dimensions_lower_first h r1 r2 a b)
        |by apply list_lookup_middle|by apply lookup_app_l_Some
        |by apply wf_prepend_axes|done| |].
      + cbn. rewrite length_app, length_replicate. unfold k. lia.
      + pose proof (broadcasted_shape_padded k (take k (shape b)) (shape a)
                      (drop k (shape b))) as Hpad.
        rewrite take_drop in Hpad. apply Hpad.
        * rewrite length_take. unfold k. lia.
        * rewrite length_drop. unfold k. lia. }
  destruct (broadcasted_shape (shape a) (drop k (shape b))) as [z|e0].
  - destruct (add_run_Ok uninit h r1 r2 p q h1 a' b' Hmd Hp Hq Hwa' Hwb' Hrank _ Hbs)
      as (d & Hrun & _).
    rewrite Hrun in Hst, Hok. cbn in Hst, Hok.
    exists (length h1), (h1 ++ [mkArray int64 (take k (shape b) ++ z) d]), d.
    split_and!; [done| |by apply list_lookup_middle].
    destruct (add uninit r2 r1 h) as [res' h''] eqn:E. cbn in Hst, Hok.
    subst h''. by rewrite (proj1 (Hok _) eq_refl).
  - pose proof (add_run_Raise uninit h r1 r2 p q h1 a' b' Hmd Hp Hq _ Hbs) as Hrun.
    rewrite Hrun in Hst, Hok. cbn in Hst, Hok.
    destruct (add uninit r2 r1 h) as [[out'|e'] h''] eqn:E; cbn in Hst, Hok; subst h''.
    + discriminate (proj2 (Hok out') eq_refl).
    + by eexists _, _, _.
Qed.

Lemma add_result_shape_witness :
  ∃ out h' d,
    add (λ _, 0) 1%nat 0%nat [a23; b3] = (Ok out, h')
    ∧ add (λ _, 0) 0%nat 1%nat [a23; b3] = (Ok out, h')
    ∧ h' !! out = Some (mkArray int64 (take 1 (shape a23) ++ [3]) d).
Proof.
  apply (add_result_shape (λ _, 0) [a23; b3] 1%nat 0%nat b3 a23);
    try reflexivity; try (apply wfb_wf; reflexivity). cbn. lia.
Defined.

(** X23.  The chain of the demonstration, for any sizes and element
    types: adding a column of shape (m,1) and a row of shape (1,n), and
    then a vector of shape (n,) to the result, returns an int64 array of
    shape (m,n).  It holds at (i,j) the numpy sum of the vector's j-th
    element and the numpy sum of the column's i-th and the row's j-th
    element: each sum wraps into its promoted type (int64 for the second
    one), and when neither overflows the cell holds the integer sum of
    the three elements. *)
Theorem add_chain_column_row_vector uninit h r1 r2 r3 a b c m n :
  h !! r1 = Some a → h !! r2 = Some b → h !! r3 = Some c →
  wf a → wf b → wf c →
  shape a = [m; 1] → shape b = [1; n] → shape c = [n] →
  ∃ out h' d,
    (ab ← add uninit r1 r2; add uninit ab r3) h = (Ok out, h')
    ∧ h' !! out = Some (mkArray int64 [m; n] d)
    ∧ ∀ i j, 0 ≤ i < m → 0 ≤ j < n →
        let x := nth (Z.to_nat i) (data a) 0 in
        let y := nth (Z.to_nat j) (data b) 0 in
        let z := nth (Z.to_nat j) (data c) 0 in
        getitem (mkArray int64 [m; n] d) [i; j]
        = Ok (Scalar (scalar_add int64 (dtype c)
                        (scalar_add (dtype a) (dtype b) x y) z))
        ∧ (representable (promote (dtype a) (dtype b)) (x + y) →
           representable int64 (x + y + z) →
           getitem (mkArray int64 [m; n] d) [i; j] = Ok (Scalar (x + y + z))).
Proof.
  intros Hr1 Hr2 Hr3 Hwa Hwb Hwc Ha Hb Hc.
  destruct (add_column_row_run uninit h r1 r2 a b m n)
    as (d1 & Hrun1 & Hd1 & Hel1); [done..|].
  set (ab := mkArray int64 [m; n] d1).
  assert (wf ab) as Hwab.
  { destruct Hwa as [Hnn _], Hwb as [Hnn2 _]. rewrite Ha in Hnn. rewrite Hb in Hnn2.
    apply Forall_cons in Hnn as [Hm _].
    apply Forall_cons in Hnn2 as [_ [Hn _]%Forall_cons].
    split; cbn; [by repeat constructor|lia]. }
  destruct (add_matrix_vector_run uninit (h ++ [ab]) (length h) r3 ab c m n)
    as (d2 & Hrun2 & Hd2 & Hel2);
    [by apply list_lookup_middle|by apply lookup_app_l_Some|done..|].
  eexists _, _, d2. split_and!.
  - erewrite bind_Ok by exact Hrun1. exact Hrun2.
  - rewrite lookup_app_r by (rewrite length_app; cbn; lia).
    rewrite length_app. cbn.
    by replace (S (length h + 1) - (length h + 1))%nat with 1%nat by lia.
  - intros i j Hi Hj x y z.
    rewrite getitem_in_bounds by (repeat constructor; cbn; lia).
    rewrite Hel2 by done. change (dtype ab) with int64.
    replace (nth (Z.to_nat (i * n + j)) (data ab) 0)
      with (element (mkArray int64 [m; n] d1) [i; j])
      by (unfold element; cbn; do 2 f_equal; lia).
    rewrite Hel1 by done. fold x y z. split; [done|].
    intros Hxy Hxyz. rewrite (scalar_add_exact (dtype a)) by done.
    rewrite scalar_add_exact; [done|]. by rewrite promote_int64_l.
Qed.

Lemma add_chain_column_row_vector_witness :
  ∃ out h' d,
    (ab ← add (λ _, 0) 0%nat 1%nat; add (λ _, 0) ab 2%nat)
      [mkArray int64 [2; 1] [1; 2]; b13; b3] = (Ok out, h')
    ∧ h' !! out = Some (mkArray int64 [2; 3] d)
    ∧ ∀ i j, 0 ≤ i < 2 → 0 ≤ j < 3 →
        let x := nth (Z.to_nat i) (data (mkArray int64 [2; 1] [1; 2])) 0 in
        let y := nth (Z.to_nat j) (data b13) 0 in
        let z := nth (Z.to_nat j) (data b3) 0 in
        getitem (mkArray int64 [2; 3] d) [i; j]
        = Ok (Scalar (scalar_add int64 (dtype b3)
                        (scalar_add int64 (dtype b13) x y) z))
        ∧ (representable (promote int64 (dtype b13)) (x + y) →
           representable int64 (x + y + z) →
           getitem (mkArray int64 [2; 3] d) [i; j] = Ok (Scalar (x + y + z))).
Proof.
  apply (add_chain_column_row_vector (λ _, 0) [mkArray int64 [2; 1] [1; 2]; b13; b3]
           0%nat 1%nat 2%nat (mkArray int64 [2; 1] [1; 2]) b13 b3 2 3);
    try reflexivity; apply wfb_wf; reflexivity.
Defined.
